(** * A job-listing scraper: shallow embedding of [app.py]

    The development follows the layout of the Python module:

    - [PyStr]: the [str] methods the scraper calls ([strip], [split],
      [replace], [zfill]) over sequences of Unicode code points;
    - [Py]: exceptions, results, the values stored in a record, the log;
    - [Bs4]: what the scraper reads from a parsed document;
    - [PracujPlScraper]: [convert_to_iso], [clean_salary], [parse_page];
    - [BaseScraper]: [fetch_page], the task pool of [process_urls] as a
      transition system, and [save_to_csv] over a file store;
    - [Main]: [main], the pool, the scraper and the sink one after the other.

    Definitions come first, the theorems after them: the properties of the
    specification, then further properties of the code. *)

From Stdlib Require Import NArith ZArith List String Ascii DecimalString Lia.
From stdpp Require Import base option list gmap.

Local Open Scope N_scope.

(* ===================================================================== *)
(** ** Python strings                                                     *)
(* ===================================================================== *)

Module PyStr.

(** A Python [str] is a sequence of code points. *)
Definition codepoint := N.
Definition pystr := list codepoint.

(** Literals are written as UTF-8 text and decoded to code points. *)
Fixpoint utf8_decode (need : nat) (acc : N) (bs : list N) : pystr :=
  match bs with
  | [] => []
  | b :: bs' =>
    match need with
    | O =>
      if b <? 128 then b :: utf8_decode 0 0 bs'
      else if b <? 224 then utf8_decode 1 (N.land b 31) bs'
      else if b <? 240 then utf8_decode 2 (N.land b 15) bs'
      else utf8_decode 3 (N.land b 7) bs'
    | S n =>
      let acc' := acc * 64 + N.land b 63 in
      match n with
      | O => acc' :: utf8_decode 0 0 bs'
      | S _ => utf8_decode n acc' bs'
      end
    end
  end.

Definition u (s : string) : pystr :=
  utf8_decode 0 0 (List.map (fun a => N_of_ascii a) (list_ascii_of_string s)).

(** [str.isspace] for one code point (CPython's [_PyUnicode_IsWhitespace]). *)
Definition isspace (c : codepoint) : bool :=
  ((9 <=? c) && (c <=? 13)) || ((28 <=? c) && (c <=? 32))
  || (c =? 133) || (c =? 160) || (c =? 5760)
  || ((8192 <=? c) && (c <=? 8202))
  || (c =? 8232) || (c =? 8233) || (c =? 8239) || (c =? 8287) || (c =? 12288).

(** [s.lstrip()], [s.rstrip()], [s.strip()] *)
Fixpoint lstrip (s : pystr) : pystr :=
  match s with
  | [] => []
  | c :: s' => if isspace c then lstrip s' else s
  end.

Definition rstrip (s : pystr) : pystr := rev (lstrip (rev s)).

Definition strip (s : pystr) : pystr := rstrip (lstrip s).

(** A blank string: whitespace only. *)
Definition all_space (s : pystr) : Prop := Forall (fun c => isspace c = true) s.

Definition no_space (s : pystr) : Prop := Forall (fun c => isspace c = false) s.

(** [s.split()]: the maximal runs of non-whitespace, in order. [cur] is the
    run being read. *)
Fixpoint split_go (cur : pystr) (s : pystr) : list pystr :=
  match s with
  | [] => match cur with [] => [] | _ => [cur] end
  | c :: s' =>
    if isspace c
    then match cur with [] => split_go [] s' | _ => cur :: split_go [] s' end
    else split_go (cur ++ [c]) s'
  end.

Definition split (s : pystr) : list pystr := split_go [] s.

(** [s.startswith(p)] *)
Fixpoint startswith (p s : pystr) : bool :=
  match p, s with
  | [], _ => true
  | _ :: _, [] => false
  | a :: p', b :: s' => (a =? b) && startswith p' s'
  end.

(** [old in s] *)
Fixpoint contains (old s : pystr) : bool :=
  startswith old s || match s with [] => false | _ :: s' => contains old s' end.

(** [s.replace(old, new)]: every occurrence, left to right, without
    overlap. [skip] counts the characters of a match still to be dropped. *)
Fixpoint replace_go (old new : pystr) (skip : nat) (s : pystr) : pystr :=
  match s with
  | [] => []
  | c :: s' =>
    match skip with
    | S k => replace_go old new k s'
    | O =>
      if startswith old s
      then new ++ replace_go old new (length old - 1)%nat s'
      else c :: replace_go old new 0 s'
    end
  end.

Definition replace (old new s : pystr) : pystr :=
  match old with
  | [] => new ++ flat_map (fun c => c :: new) s
  | _ :: _ => replace_go old new 0 s
  end.

(** [s.zfill(width)]: zeros on the left, after a leading sign. *)
Definition zfill (width : nat) (s : pystr) : pystr :=
  if (width <=? length s)%nat then s
  else
    let zeros := repeat 48 (width - length s)%nat in
    match s with
    | c :: rest => if (c =? 43) || (c =? 45) then c :: zeros ++ rest else zeros ++ s
    | [] => zeros
    end.

(** [str(n)] for a natural number. *)
Definition str_of_nat (n : nat) : pystr :=
  List.map (fun a => N_of_ascii a)
    (list_ascii_of_string (NilEmpty.string_of_uint (Nat.to_uint n))).

(** [sep.join(l)] with the empty separator. *)
Definition join (l : list pystr) : pystr := concat l.

End PyStr.
Export PyStr.

(* ===================================================================== *)
(** ** Exceptions, results, values                                        *)
(* ===================================================================== *)

Module Py.

(** The exception classes the program meets. All derive from [Exception];
    [IOError] is Python 3's alias of [OSError]. *)
Inductive exn_class := ValueError | KeyError | OSError | WebDriverError.

Record exn := Exn { exn_cls : exn_class; exn_msg : pystr }.

Definition is_IOError (e : exn) : bool :=
  match exn_cls e with OSError => true | _ => false end.

(** A computation returns or raises. *)
Inductive result (A : Type) := Ok (a : A) | Raise (e : exn).
Arguments Ok {A} a.
Arguments Raise {A} e.

#[global] Instance result_ret : MRet result := fun A a => Ok a.

#[global] Instance result_bind : MBind result := fun A B k r =>
  match r with Ok a => k a | Raise e => Raise e end.

(** [try: body except Exception: handler] *)
Definition try_except {A} (body : result A) (handler : exn -> result A) : result A :=
  match body with Ok a => Ok a | Raise e => handler e end.

(** What a record field holds: text or a list of texts; [PNone] is the
    value of a function that returns nothing. *)
Inductive pyval := PStr (s : pystr) | PList (l : list pystr) | PNone.

(** A [dict] with its insertion order. *)
Definition pydict := list (pystr * pyval).

Definition keys (d : pydict) : list pystr := List.map fst d.

Fixpoint dict_get (d : pydict) (k : pystr) : option pyval :=
  match d with
  | [] => None
  | (k', v) :: d' => if decide (k' = k) then Some v else dict_get d' k
  end.

(** Log records: level and message. *)
Inductive level := INFO | WARNING | ERROR.
Definition log_record := (level * pystr)%type.

End Py.
Export Py.

(* ===================================================================== *)
(** ** The parsed document                                                *)
(* ===================================================================== *)

Module Bs4.

(** An element as the scraper reads it: its text nodes in document order
    and its attributes. *)
Record Tag := { strings : list pystr; attrs : gmap pystr pystr }.

(** [tag.get_text()] *)
Definition get_text (t : Tag) : pystr := join (strings t).

(** [tag.get_text(strip=True)]: every text node stripped, the empty ones
    left out. *)
Definition nonempty (s : pystr) : bool :=
  match s with [] => false | _ :: _ => true end.

Definition get_text_strip (t : Tag) : pystr :=
  join (List.filter nonempty (List.map strip (strings t))).

(** [tag[key]] *)
Definition getitem (t : Tag) (key : pystr) : result pystr :=
  match attrs t !! key with
  | Some v => Ok v
  | None => Raise (Exn KeyError key)
  end.

(** One listing block, as the answers to the six queries [parse_page] makes
    on it: [find] gives a tag or [None], [find_all] the matching tags in
    document order. *)
Record Offer := {
  title_tag : option Tag;
  company_tag : option Tag;
  date_tag : option Tag;
  salary_tag : option Tag;
  tech_tags : list Tag;
  link_tag : option Tag
}.

End Bs4.
Export Bs4.

(* ===================================================================== *)
(** ** BaseScraper                                                        *)
(* ===================================================================== *)

Module BaseScraper.

(** The abstract method of the base class. *)
Class Scraper := { parse_page : pystr -> result (list pydict) }.

(** What the browser does during one call of [fetch_page]: each operation
    of the [try] block returns or raises. *)
Record session := {
  get_driver : result unit;
  driver_get : result unit;
  find_element_body : result unit;
  send_keys : nat -> result unit;
  page_source : result pystr
}.

(** [for _ in range(n): body.send_keys(Keys.PAGE_DOWN); time.sleep(0.5)],
    from the [k]-th key press on. *)
Fixpoint scroll (ses : session) (k n : nat) : result unit :=
  match n with
  | O => Ok tt
  | S n' => _ ← send_keys ses k; scroll ses (S k) n'
  end.

(** The [try] block of [fetch_page]. *)
Definition render (ses : session) : result pystr :=
  _ ← get_driver ses;
  _ ← driver_get ses;
  _ ← find_element_body ses;
  _ ← scroll ses 0 3;
  page_source ses.

(** [fetch_page]: the value returned and the lines logged. [except
    Exception] turns whatever the block raised into [None] and an error
    line. The [finally] clause quits the driver when one was created; it
    changes neither the value nor the log ([quit] of the Chrome driver
    keeps the errors of the browser to itself). *)
Definition fetch_page (url : pystr) (ses : session)
  : option pystr * list log_record :=
  match render ses with
  | Ok page => (Some page, [])
  | Raise e =>
    (None, [(ERROR, u "Error fetching URL " ++ url ++ u ": " ++ exn_msg e)])
  end.

(** [if html:] is false for [None] and for the empty string. *)
Definition truthy (html : option pystr) : bool :=
  match html with Some (_ :: _) => true | _ => false end.

(** *** The task pool of [process_urls]

    One task per URL. A task is created [Pending]; its first step takes a
    permit of the semaphore or queues ([Waiting]); with the permit it runs
    [fetch_page] on a worker thread ([Fetching]); when the worker is done
    the result waits for the event loop ([Fetched]); the loop then parses,
    extends [data], releases the permit and the task is [Done], or [Failed]
    when [parse_page] raised. *)
Inductive phase :=
| Pending
| Waiting
| Fetching
| Fetched (html : option pystr)
| Done
| Failed (e : exn).

(** [await asyncio.gather(...)] in [process_urls]. *)
Inductive gather := Gathering | Returned | Raised (e : exn).

Record state := {
  tasks : list phase;
  sem_value : nat;
  waiters : list nat;
  data : list pydict;
  log : list log_record;
  outcome : gather
}.

(** What can happen next, one event per point where control changes hands:
    - [Start i]: the event loop runs the first step of task [i], up to the
      [await] in [async with sem] or in [process_url];
    - [WorkerDone i]: the worker thread of task [i] leaves [fetch_page];
    - [Resume i]: the event loop runs task [i] from the [await] of
      [run_in_executor] to its end;
    - [GatherReturn]: all tasks have returned, [gather] returns;
    - [GatherRaise i]: task [i] has raised, [gather] raises its exception.
    Tasks run on one thread and give way only at an [await], so a run is a
    sequence of such events; the order is not fixed. *)
Inductive event :=
| Start (i : nat)
| WorkerDone (i : nat)
| Resume (i : nat)
| GatherReturn
| GatherRaise (i : nat).

Definition set_phase (i : nat) (p : phase) (s : state) : state :=
  {| tasks := <[i := p]> (tasks s); sem_value := sem_value s;
     waiters := waiters s; data := data s; log := log s;
     outcome := outcome s |}.

(** [sem.acquire()] on the first step of task [i]. The semaphore is
    [asyncio.Semaphore] of CPython 3.11 and later: it is locked when its
    value is 0 or a task waits, and the queue is first in, first out. *)
Definition acquire (i : nat) (s : state) : state :=
  match sem_value s, waiters s with
  | S v, [] =>
    {| tasks := <[i := Fetching]> (tasks s); sem_value := v;
       waiters := []; data := data s; log := log s; outcome := outcome s |}
  | _, _ =>
    {| tasks := <[i := Waiting]> (tasks s); sem_value := sem_value s;
       waiters := waiters s ++ [i]; data := data s; log := log s;
       outcome := outcome s |}
  end.

(** [sem.release()]: the permit goes to the first waiter, if any, which
    then goes on to [process_url]. *)
Definition release (s : state) : state :=
  match waiters s with
  | [] =>
    {| tasks := tasks s; sem_value := S (sem_value s); waiters := [];
       data := data s; log := log s; outcome := outcome s |}
  | w :: ws =>
    {| tasks := <[w := Fetching]> (tasks s); sem_value := sem_value s;
       waiters := ws; data := data s; log := log s; outcome := outcome s |}
  end.

Definition is_done (p : phase) : bool :=
  match p with Done => true | _ => false end.

Definition is_waiting (p : phase) : bool :=
  match p with Waiting => true | _ => false end.

(** A task the scheduler or [gather] can act on. *)
Definition ready (p : phase) : bool :=
  match p with Waiting | Done => false | _ => true end.

(** A task is in its fetch-and-extract cycle from the permit to the
    release; its renderer lives inside [fetch_page]. *)
Definition in_cycle (p : phase) : bool :=
  match p with Fetching | Fetched _ => true | _ => false end.

Definition renderer_active (p : phase) : bool :=
  match p with Fetching => true | _ => false end.

(** The task has left [process_url], by return or by exception. *)
Definition finished (p : phase) : bool :=
  match p with Done | Failed _ => true | _ => false end.

(** The worker thread of the task has left [fetch_page]. *)
Definition fetch_over (p : phase) : bool :=
  match p with Fetched _ | Done | Failed _ => true | _ => false end.

(** Does the [j]-th task satisfy [f]? *)
Definition task_is (f : phase -> bool) (l : list phase) (j : nat) : bool :=
  match l !! j with Some p => f p | None => false end.

(** The tasks resumed by a schedule, and the tasks whose worker ended, in
    the order of the schedule. *)
Definition resumed (evs : list event) : list nat :=
  omap (fun ev => match ev with Resume i => Some i | _ => None end) evs.

Definition workers_done (evs : list event) : list nat :=
  omap (fun ev => match ev with WorkerDone i => Some i | _ => None end) evs.

(** The sum of [g] over the tasks; with an indicator, a count. *)
Definition total (g : phase -> nat) (l : list phase) : nat :=
  sum_list (List.map g l).

Definition count (f : phase -> bool) (l : list phase) : nat :=
  total (fun p => if f p then 1 else 0)%nat l.

(** Steps a task still has before it. *)
Definition rank (p : phase) : nat :=
  match p with
  | Pending => 4 | Waiting => 3 | Fetching => 2 | Fetched _ => 1
  | Done | Failed _ => 0
  end.

Definition measure (s : state) : nat :=
  (total rank (tasks s) + match outcome s with Gathering => 1 | _ => 0 end)%nat.

Definition records (r : result (list pydict)) : list pydict :=
  match r with Ok l => l | Raise _ => [] end.

(** The records collected from the tasks, task by task. *)
Definition gathered (c : nat -> phase -> list pydict) (l : list phase) : list pydict :=
  concat (imap c l).

(** With a limit of 0, no task ever gets a permit. *)
Definition starved (s : state) : Prop :=
  outcome s = Gathering /\ sem_value s = 0%nat /\ tasks s <> [] /\ data s = [] /\
  Forall (fun p => p = Pending \/ p = Waiting) (tasks s).

(** [BaseScraper.__init__]: one URL or a list of URLs. *)
Inductive urls_arg := OneUrl (url : pystr) | UrlList (urls : list pystr).

Definition init_urls (a : urls_arg) : list pystr :=
  match a with UrlList urls => urls | OneUrl url => [url] end.

Definition default_max_workers : Z := 3.

Section Pool.

Context `{Scraper}.
Variable urls : list pystr.
Variable max_workers : Z.
Variable renderer : nat -> session.

Definition url_of (i : nat) : pystr := default [] (urls !! i).

(** The rest of [process_url] once the worker has returned [html], then the
    exit of [async with sem]. *)
Definition resume (i : nat) (html : option pystr) (s : state) : state :=
  if truthy html then
    match parse_page (default [] html) with
    | Ok page_data =>
      release
        {| tasks := <[i := Done]> (tasks s); sem_value := sem_value s;
           waiters := waiters s; data := data s ++ page_data;
           log := log s ++
             [(INFO, u "Processed " ++ url_of i ++ u ", found "
                     ++ str_of_nat (length page_data) ++ u " listings")];
           outcome := outcome s |}
    | Raise e => release (set_phase i (Failed e) s)
    end
  else release (set_phase i Done s).

Definition step (s : state) (ev : event) : option state :=
  match outcome s with
  | Gathering =>
    match ev with
    | Start i =>
      match tasks s !! i with
      | Some Pending => Some (acquire i s)
      | _ => None
      end
    | WorkerDone i =>
      match tasks s !! i with
      | Some Fetching =>
        let '(html, lines) := fetch_page (url_of i) (renderer i) in
        Some {| tasks := <[i := Fetched html]> (tasks s);
                sem_value := sem_value s; waiters := waiters s;
                data := data s; log := log s ++ lines;
                outcome := outcome s |}
      | _ => None
      end
    | Resume i =>
      match tasks s !! i with
      | Some (Fetched html) => Some (resume i html s)
      | _ => None
      end
    | GatherReturn =>
      if forallb is_done (tasks s)
      then Some {| tasks := tasks s; sem_value := sem_value s;
                   waiters := waiters s; data := data s; log := log s;
                   outcome := Returned |}
      else None
    | GatherRaise i =>
      match tasks s !! i with
      | Some (Failed e) =>
        Some {| tasks := tasks s; sem_value := sem_value s;
                waiters := waiters s; data := data s; log := log s;
                outcome := Raised e |}
      | _ => None
      end
    end
  | _ => None
  end.

(** [process_urls] up to its [await]: the semaphore, then one task per URL.
    [asyncio.Semaphore] refuses a negative value. *)
Definition init : state :=
  if (max_workers <? 0)%Z then
    {| tasks := []; sem_value := 0; waiters := []; data := []; log := [];
       outcome := Raised (Exn ValueError (u "Semaphore initial value must be >= 0")) |}
  else
    {| tasks := List.map (fun _ => Pending) urls;
       sem_value := Z.to_nat max_workers; waiters := []; data := []; log := [];
       outcome := Gathering |}.

(** What [process_url] gets from [parse_page] for the [i]-th URL: nothing
    is parsed when the page was not rendered or is empty. *)
Definition extraction (i : nat) : result (list pydict) :=
  match render (renderer i) with
  | Ok page => if truthy (Some page) then parse_page page else Ok []
  | Raise _ => Ok []
  end.

Definition rendered (i : nat) : bool :=
  match render (renderer i) with Ok _ => true | Raise _ => false end.

(** The line [fetch_page] logs for the [i]-th URL when rendering raised [e]. *)
Definition failure_line (i : nat) (e : exn) : log_record :=
  (ERROR, u "Error fetching URL " ++ url_of i ++ u ": " ++ exn_msg e).

(** The lines an event adds to the log: the error line of [fetch_page] when
    the worker ends, the line of [process_url] when a page was parsed. *)
Definition event_lines (ev : event) : list log_record :=
  match ev with
  | WorkerDone i => (fetch_page (url_of i) (renderer i)).2
  | Resume i =>
    match render (renderer i) with
    | Ok (c :: page) =>
      match parse_page (c :: page) with
      | Ok page_data =>
        [(INFO, u "Processed " ++ url_of i ++ u ", found "
                ++ str_of_nat (length page_data) ++ u " listings")]
      | Raise _ => []
      end
    | _ => []
    end
  | _ => []
  end.

(** A schedule is the list of events in the order they happen. *)
Fixpoint exec (s : state) (evs : list event) : option state :=
  match evs with
  | [] => Some s
  | ev :: evs' =>
    match step s ev with
    | Some s' => exec s' evs'
    | None => None
    end
  end.

Definition run (evs : list event) : option state := exec init evs.

(** The records a task has put into [data]. *)
Definition contribution (i : nat) (p : phase) : list pydict :=
  match p with Done => records (extraction i) | _ => [] end.

Definition failure_logged (lg : list log_record) (i : nat) : Prop :=
  forall e, render (renderer i) = Raise e -> failure_line i e ∈ lg.

(** What the phase of task [i] says about its URL, with the log so far. *)
Definition phase_ok (lg : list log_record) (i : nat) (p : phase) : Prop :=
  match p with
  | Fetched html =>
    html = fst (fetch_page (url_of i) (renderer i)) /\ failure_logged lg i
  | Done => (exists l, extraction i = Ok l) /\ failure_logged lg i
  | Failed e => extraction i = Raise e
  | _ => True
  end.

(** The invariant of the pool. [owed] is 1 between the end of a task's
    cycle and the release of its permit, 0 otherwise. *)
Record pool_inv (owed : nat) (s : state) : Prop := {
  inv_length : (0 <= max_workers)%Z -> length (tasks s) = length urls;
  inv_permits :
    (sem_value s + count in_cycle (tasks s) + owed)%nat = Z.to_nat max_workers;
  inv_waiting : forall i, i ∈ waiters s <-> tasks s !! i = Some Waiting;
  inv_nodup : NoDup (waiters s);
  inv_locked : waiters s <> [] -> sem_value s = 0%nat;
  inv_phase : forall i p, tasks s !! i = Some p -> phase_ok (log s) i p;
  inv_data : data s ≡ₚ gathered contribution (tasks s);
  inv_outcome :
    match outcome s with
    | Gathering => True
    | Returned => Forall (fun p => p = Done) (tasks s)
    | Raised e => (max_workers < 0)%Z \/ exists i, tasks s !! i = Some (Failed e)
    end
}.

(** A stage of the cycle, [f], reached by the tasks an event of one kind,
    [mark], names: the event takes its task into the stage, and nothing
    else takes a task in or out. *)
Definition stage_of (f : phase -> bool) (mark : event -> option nat) : Prop :=
  forall s ev s' j,
    pool_inv 0 s -> step s ev = Some s' ->
    task_is f (tasks s') j = task_is f (tasks s) j || bool_decide (mark ev = Some j) /\
    (mark ev = Some j -> task_is f (tasks s) j = false).

End Pool.

(** *** The record sink

    A file is the list of rows written to it by the [csv] writer, a row the
    list of its cells. The store maps a path to its file; [disk] tells how
    the destination behaves: [open] may raise, or a write may raise once
    [n] rows are in the file. *)
Definition row := list pyval.

Inductive disk :=
| Writable
| OpenFails (msg : pystr)
| WriteFails (n : nat) (msg : pystr).

Record world := { files : gmap pystr (list row); logged : list log_record }.

(** State and exceptions together. *)
Definition io (A : Type) := world -> result A * world.

#[global] Instance io_ret : MRet io := fun A a w => (Ok a, w).

#[global] Instance io_bind : MBind io := fun A B k m w =>
  match m w with
  | (Ok a, w') => k a w'
  | (Raise e, w') => (Raise e, w')
  end.

Definition raise {A} (e : exn) : io A := fun w => (Raise e, w).

Definition logger (l : level) (msg : pystr) : io unit := fun w =>
  (Ok tt, {| files := files w; logged := logged w ++ [(l, msg)] |}).

(** [try: body except IOError as e: handler e]; another exception passes. *)
Definition try_except_IOError {A} (body : io A) (handler : exn -> io A) : io A :=
  fun w =>
    match body w with
    | (Ok a, w') => (Ok a, w')
    | (Raise e, w') => if is_IOError e then handler e w' else (Raise e, w')
    end.



(** The caller can tell a failed call from a successful one by what the
    two return. *)
Definition reports_failure (failed succeeded : result pyval) : Prop :=
  failed <> succeeded.

Section Sink.

Variable dsk : pystr -> disk.

(** [open(filename, mode='w', ...)]: the file is created or emptied. *)
Definition open_w (filename : pystr) : io unit := fun w =>
  match dsk filename with
  | OpenFails msg => (Raise (Exn OSError msg), w)
  | _ => (Ok tt, {| files := <[filename := []]> (files w); logged := logged w |})
  end.

(** One row handed to the underlying writer. *)
Definition write_row (filename : pystr) (r : row) : io unit := fun w =>
  let old := default [] (files w !! filename) in
  match dsk filename with
  | WriteFails n msg =>
    if (n <=? length old)%nat then (Raise (Exn OSError msg), w)
    else (Ok tt, {| files := <[filename := old ++ [r]]> (files w); logged := logged w |})
  | _ => (Ok tt, {| files := <[filename := old ++ [r]]> (files w); logged := logged w |})
  end.

(** [rowdict.get(key, restval)] for each field name, with [restval='']. *)
Definition row_of (fieldnames : list pystr) (rowdict : pydict) : row :=
  List.map (fun key => default (PStr []) (dict_get rowdict key)) fieldnames.

(** [DictWriter._dict_to_list] with [extrasaction='raise']. *)
Definition dict_to_list (fieldnames : list pystr) (rowdict : pydict) : result row :=
  if forallb (fun k => bool_decide (k ∈ fieldnames)) (keys rowdict)
  then Ok (row_of fieldnames rowdict)
  else Raise (Exn ValueError (u "dict contains fields not in fieldnames")).

(** [writer.writeheader()] *)
Definition writeheader (filename : pystr) (fieldnames : list pystr) : io unit :=
  write_row filename (List.map PStr fieldnames).

(** [writer.writerows(rowdicts)] *)
Fixpoint writerows (filename : pystr) (fieldnames : list pystr)
    (rowdicts : list pydict) : io unit :=
  match rowdicts with
  | [] => mret tt
  | d :: rest =>
    match dict_to_list fieldnames d with
    | Ok r => write_row filename r ≫= fun _ => writerows filename fieldnames rest
    | Raise e => raise e
    end
  end.

Definition save_to_csv (data : list pydict) (filename : pystr) : io pyval :=
  match data with
  | [] => logger WARNING (u "No data to save") ≫= fun _ => mret PNone
  | first :: _ =>
    try_except_IOError
      (open_w filename ≫= fun _ =>
       writeheader filename (keys first) ≫= fun _ =>
       writerows filename (keys first) data ≫= fun _ =>
       logger INFO (u "Data saved to " ++ filename) ≫= fun _ =>
       mret PNone)
      (fun e => logger ERROR (u "Error saving to CSV: " ++ exn_msg e) ≫= fun _ =>
                mret PNone)
  end.

End Sink.

End BaseScraper.

(* ===================================================================== *)
(** ** PracujPlScraper: date and salary                                   *)
(* ===================================================================== *)

Module PracujPlScraper.

Definition polish_months : gmap pystr pystr :=
  list_to_map
    [ (u "stycznia", u "01"); (u "lutego", u "02"); (u "marca", u "03");
      (u "kwietnia", u "04"); (u "maja", u "05"); (u "czerwca", u "06");
      (u "lipca", u "07"); (u "sierpnia", u "08"); (u "września", u "09");
      (u "października", u "10"); (u "listopada", u "11"); (u "grudnia", u "12") ].

Definition Brak_daty : pystr := u "Brak daty".

(** [day, month_polish, year = tokens] *)
Definition unpack3 (tokens : list pystr) : result (pystr * pystr * pystr) :=
  match tokens with
  | [day; month_polish; year] => Ok (day, month_polish, year)
  | _ => Raise (Exn ValueError (u "wrong number of values to unpack"))
  end.

(** [polish_months[month_polish]] *)
Definition month_lookup (month_polish : pystr) : result pystr :=
  match polish_months !! month_polish with
  | Some m => Ok m
  | None => Raise (Exn KeyError month_polish)
  end.

(** [date_str.replace('Opublikowana:', '').strip().split()] *)
Definition date_tokens (date_str : pystr) : list pystr :=
  split (strip (replace (u "Opublikowana:") [] date_str)).

(** The body of the [try] block of [convert_to_iso]. *)
Definition convert_to_iso_body (date_str : pystr) : result pystr :=
  match strip date_str with
  | [] => Ok Brak_daty
  | _ :: _ =>
    '(day, month_polish, year) ← unpack3 (date_tokens date_str);
    month ← month_lookup month_polish;
    Ok (year ++ u "-" ++ month ++ u "-" ++ zfill 2 day)
  end.

Definition convert_to_iso (date_str : pystr) : result pystr :=
  try_except (convert_to_iso_body date_str) (fun _ => Ok Brak_daty).

Definition salary_suffix : pystr := u " zł / mies. (zal. od umowy)".

Definition clean_salary (salary : pystr) : pystr :=
  strip (replace salary_suffix [] salary).

Definition Brak_wynagrodzenia : pystr := u "Brak wynagrodzenia".
Definition Brak_technologii : pystr := u "Brak technologii".

(** The dictionary built for one listing block. *)
Definition parse_offer (offer : Offer) : result pydict :=
  data_opublikowania ←
    convert_to_iso (match date_tag offer with Some t => get_text t | None => [] end);
  link ←
    match link_tag offer with
    | Some t => getitem t (u "href")
    | None => Ok (u "Brak linku")
    end;
  Ok [ (u "Tytuł",
        PStr (match title_tag offer with
              | Some t => get_text_strip t | None => u "Brak tytułu" end));
       (u "Firma",
        PStr (match company_tag offer with
              | Some t => get_text_strip t | None => u "Brak nazwy firmy" end));
       (u "Data_opublikowania", PStr data_opublikowania);
       (u "Wynagrodzenie",
        PStr (clean_salary (match salary_tag offer with
                            | Some t => get_text t | None => Brak_wynagrodzenia end)));
       (u "Technologie",
        match tech_tags offer with
        | [] => PStr Brak_technologii
        | _ :: _ => PList (List.map get_text_strip (tech_tags offer))
        end);
       (u "Link", PStr link) ].

(** The keys of the dictionary, in the order they are written. *)
Definition job_fields : list pystr :=
  [u "Tytuł"; u "Firma"; u "Data_opublikowania"; u "Wynagrodzenie";
   u "Technologie"; u "Link"].

(** The block has the link element, and the element has no [href]. *)
Definition lacks_href (offer : Offer) : Prop :=
  exists t, link_tag offer = Some t /\ attrs t !! u "href" = None.

(** The loop over the listing blocks. *)
Fixpoint parse_offers (offers : list Offer) : result (list pydict) :=
  match offers with
  | [] => Ok []
  | offer :: rest =>
    job_data ← parse_offer offer;
    page_data ← parse_offers rest;
    Ok (job_data :: page_data)
  end.

Section Parse.

(** [BeautifulSoup(html, 'html.parser').find_all('div', class_=...)] with
    the queries made on each block: the markup library is taken as given. *)
Variable find_offers : pystr -> list Offer.

Definition parse_page (html : pystr) : result (list pydict) :=
  parse_offers (find_offers html).

#[export] Instance scraper : BaseScraper.Scraper :=
  {| BaseScraper.parse_page := parse_page |}.

End Parse.

End PracujPlScraper.

(* ===================================================================== *)
(** ** main                                                               *)
(* ===================================================================== *)

Module Main.

Import BaseScraper.

Definition urls : list pystr :=
  [ u "https://it.pracuj.pl/praca?et=1%2C3%2C17&itth=37";
    u "https://it.pracuj.pl/praca?et=1%2C3%2C17&itth=33";
    u "https://it.pracuj.pl/praca?et=1%2C3%2C17&itth=41" ].

Definition output : pystr := u "job_listings.csv".

Section Main.

(** The world [main] runs in: the markup library, the browser sessions, the
    disk, and the schedule of the event loop. *)
Variable find_offers : pystr -> list Offer.
Variable renderer : nat -> session.
Variable dsk : pystr -> disk.

(** [scraper = PracujPlScraper(urls)], [await scraper.process_urls()], then
    [scraper.save_to_csv("job_listings.csv")]. An exception of
    [process_urls] leaves [main] before the file is written. The result is
    [None] for a list of events that is not a schedule or that leaves
    [process_urls] unfinished. *)
Definition main (evs : list event) (w : world) : option (result pyval * world) :=
  match run (H := PracujPlScraper.scraper find_offers)
          (init_urls (UrlList urls)) default_max_workers renderer evs with
  | Some s =>
    let w1 := {| files := files w; logged := logged w ++ log s |} in
    match outcome s with
    | Returned => Some (save_to_csv dsk (data s) output w1)
    | Raised e => Some (Raise e, w1)
    | Gathering => None
    end
  | None => None
  end.

End Main.

End Main.

(* ===================================================================== *)
(** ** Sample inputs                                                      *)
(* ===================================================================== *)

Module Samples.

Import BaseScraper PracujPlScraper.

Definition text_tag (s : pystr) : Tag := {| strings := [s]; attrs := ∅ |}.

Definition anchor (href : pystr) : Tag :=
  {| strings := []; attrs := {[ u "href" := href ]} |}.

(** A block with every element, two technology tags among them. *)
Definition full_offer : Offer :=
  {| title_tag := Some (text_tag (u " Python Developer "));
     company_tag := Some (text_tag (u "ACME"));
     date_tag := Some (text_tag (u "Opublikowana: 12 stycznia 2024"));
     salary_tag := Some (text_tag (u "8000 zł / mies. (zal. od umowy)"));
     tech_tags := [text_tag (u " Python "); text_tag (u "SQL")];
     link_tag := Some (anchor (u "https://it.pracuj.pl/praca/1")) |}.

(** A block with none of the elements. *)
Definition bare_offer : Offer :=
  {| title_tag := None; company_tag := None; date_tag := None;
     salary_tag := None; tech_tags := []; link_tag := None |}.

(** A stand-in for the markup library: a page is a run of letters, [f] for
    a full block and [b] for a bare one. *)
Definition find_offers (html : pystr) : list Offer :=
  flat_map (fun c => if c =? 102 then [full_offer]
                     else if c =? 98 then [bare_offer] else []) html.

Definition full_record : pydict :=
  [ (u "Tytuł", PStr (u "Python Developer")); (u "Firma", PStr (u "ACME"));
    (u "Data_opublikowania", PStr (u "2024-01-12"));
    (u "Wynagrodzenie", PStr (u "8000"));
    (u "Technologie", PList [u "Python"; u "SQL"]);
    (u "Link", PStr (u "https://it.pracuj.pl/praca/1")) ].

Definition bare_record : pydict :=
  [ (u "Tytuł", PStr (u "Brak tytułu")); (u "Firma", PStr (u "Brak nazwy firmy"));
    (u "Data_opublikowania", PStr (u "Brak daty"));
    (u "Wynagrodzenie", PStr (u "Brak wynagrodzenia"));
    (u "Technologie", PStr (u "Brak technologii"));
    (u "Link", PStr (u "Brak linku")) ].

Definition job_listings : pystr := u "job_listings.csv".

(** Three URLs under a limit of two; the second one fails to render. *)
Definition urls : list pystr :=
  [u "https://it.pracuj.pl/praca?itth=37"; u "https://it.pracuj.pl/praca?itth=33";
   u "https://it.pracuj.pl/praca?itth=41"].

(** A session that goes well and one whose page load times out. *)
Definition loads (page : pystr) : session :=
  {| get_driver := Ok tt; driver_get := Ok tt; find_element_body := Ok tt;
     send_keys := fun _ => Ok tt; page_source := Ok page |}.

Definition timed_out : exn := Exn WebDriverError (u "net::ERR_TIMED_OUT").

Definition times_out : session :=
  {| get_driver := Ok tt; driver_get := Raise timed_out; find_element_body := Ok tt;
     send_keys := fun _ => Ok tt; page_source := Ok [] |}.

Definition renderer (i : nat) : session :=
  match i with
  | 0%nat => loads (u "fb")
  | 1%nat => times_out
  | _ => loads (u "f")
  end.

(** The third task waits for a permit and gets the one of the second. *)
Definition started : list event := [Start 0; Start 1; Start 2; WorkerDone 1].

Definition schedule : list event :=
  started ++ [Resume 1; WorkerDone 0; WorkerDone 2; Resume 2; Resume 0; GatherReturn].

(** The same run with the first task resumed before the third. *)
Definition schedule' : list event :=
  started ++ [Resume 1; WorkerDone 2; WorkerDone 0; Resume 0; Resume 2; GatherReturn].

Definition empty_world : world := {| files := ∅; logged := [] |}.

(** A run in which every task gets a permit at once. *)
Definition all_at_once : list event :=
  [Start 0; Start 1; Start 2; WorkerDone 0; WorkerDone 1; WorkerDone 2;
   Resume 0; Resume 1; Resume 2; GatherReturn].

End Samples.

(* ===================================================================== *)
(** * Properties                                                          *)
(* ===================================================================== *)

Import BaseScraper PracujPlScraper.

(** Steps of the result monad, without unfolding anything else. *)
Ltac bind_step := cbv beta iota delta [mbind result_bind mret result_ret].

(** ** Strings *)

Example u_ascii : u "a-9" = [97; 45; 57].
Proof. reflexivity. Qed.

Example u_two_bytes : u "zł" = [122; 322].
Proof. reflexivity. Qed.

Example strip_both_sides : strip (u "  a b ") = u "a b".
Proof. reflexivity. Qed.

Example split_runs : split (u " 12  stycznia 2024 ") = [u "12"; u "stycznia"; u "2024"].
Proof. reflexivity. Qed.

Example replace_all : replace (u "ab") (u "-") (u "ababa") = u "--a".
Proof. reflexivity. Qed.

Example zfill_sign : zfill 4 (u "-5") = u "-005".
Proof. reflexivity. Qed.

Example str_of_nat_12 : str_of_nat 12 = u "12".
Proof. reflexivity. Qed.

Lemma lstrip_nil_all_space s : lstrip s = [] -> all_space s.
Proof.
  induction s as [|c s IH]; simpl; [constructor|].
  destruct (isspace c) eqn:E; [|discriminate].
  intros Hs. constructor; [exact E | exact (IH Hs)].
Qed.

Lemma all_space_lstrip s : all_space s -> lstrip s = [].
Proof.
  induction 1 as [|c s Hc _ IH]; simpl; [reflexivity|]. now rewrite Hc.
Qed.

Lemma lstrip_head s c r : lstrip s = c :: r -> isspace c = false.
Proof.
  induction s as [|a s IH]; simpl; [discriminate|].
  destruct (isspace a) eqn:E; [exact IH|]. intros [= <- _]. exact E.
Qed.

Lemma all_space_rev s : all_space s -> all_space (rev s).
Proof. apply List.Forall_rev. Qed.

(** A string strips to nothing exactly when it is blank. *)
Lemma strip_nil_all_space s : strip s = [] -> all_space s.
Proof.
  unfold strip, rstrip. intros Hs.
  apply (f_equal (@rev _)) in Hs. rewrite rev_involutive in Hs. simpl in Hs.
  apply lstrip_nil_all_space, all_space_rev in Hs. rewrite rev_involutive in Hs.
  destruct (lstrip s) as [|c r] eqn:E; [now apply lstrip_nil_all_space|].
  apply lstrip_head in E. inversion Hs; congruence.
Qed.

Lemma all_space_strip s : all_space s -> strip s = [].
Proof.
  intros Hs. unfold strip, rstrip. now rewrite (all_space_lstrip s Hs).
Qed.

Lemma all_space_split s : all_space s -> split s = [].
Proof.
  unfold split. induction 1 as [|c s Hc _ IH]; simpl; [reflexivity|]. now rewrite Hc.
Qed.

(** Nothing is replaced in a blank string when the pattern begins with a
    character that is not a blank. *)
Lemma all_space_replace_go o old new s :
  isspace o = false -> all_space s -> replace_go (o :: old) new 0 s = s.
Proof.
  intros Ho. induction 1 as [|c s Hc _ IH]; [reflexivity|].
  cbn [replace_go startswith].
  destruct (N.eqb_spec o c) as [->|_]; [congruence|]. cbn. now rewrite IH.
Qed.

Lemma blank_has_no_tokens date_str : strip date_str = [] -> date_tokens date_str = [].
Proof.
  intros Hs. apply strip_nil_all_space in Hs. unfold date_tokens.
  change (replace (u "Opublikowana:") [] date_str)
    with (replace_go (79 :: u "publikowana:") [] 0 date_str).
  rewrite all_space_replace_go by (reflexivity || assumption).
  rewrite all_space_strip by assumption. reflexivity.
Qed.

(** ** Dates *)

Lemma convert_to_iso_blank date_str :
  strip date_str = [] -> convert_to_iso date_str = Ok Brak_daty.
Proof. intros Hs. unfold convert_to_iso, convert_to_iso_body. now rewrite Hs. Qed.

Lemma convert_to_iso_tokens date_str :
  strip date_str <> [] ->
  convert_to_iso date_str =
    try_except
      ('(day, month_polish, year) ← unpack3 (date_tokens date_str);
       month ← month_lookup month_polish;
       Ok (year ++ u "-" ++ month ++ u "-" ++ zfill 2 day))
      (fun _ => Ok Brak_daty).
Proof.
  intros Hs. unfold convert_to_iso, convert_to_iso_body.
  destruct (strip date_str); [contradiction|reflexivity].
Qed.

Lemma unpack3_wrong_count tokens :
  length tokens <> 3%nat -> exists e, unpack3 tokens = Raise e.
Proof.
  intros Hn. destruct tokens as [|a [|b [|c [|d r]]]]; simpl in *; eauto; lia.
Qed.

Lemma month_values m month :
  polish_months !! m = Some month ->
  In month [u "01"; u "02"; u "03"; u "04"; u "05"; u "06";
            u "07"; u "08"; u "09"; u "10"; u "11"; u "12"].
Proof.
  intros Hm. unfold polish_months in Hm.
  apply elem_of_list_to_map_2 in Hm.
  repeat (apply elem_of_cons in Hm as [Hm|Hm];
          [injection Hm as _ ->; simpl; tauto|]).
  now apply elem_of_nil in Hm.
Qed.

(** C5: the three sample dates. ["12 stycznia 2024"] becomes ["2024-01-12"];
    the empty string and ["5 invalidmonth 2023"] become ["Brak daty"]. *)
Theorem convert_to_iso_samples :
  convert_to_iso (u "12 stycznia 2024") = Ok (u "2024-01-12") /\
  convert_to_iso (u "") = Ok (u "Brak daty") /\
  convert_to_iso (u "5 invalidmonth 2023") = Ok (u "Brak daty").
Proof. repeat split; vm_compute; reflexivity. Qed.

(** C6: [convert_to_iso] returns on every input and never raises; a blank
    input, a token count other than three and an unknown month name all give
    ["Brak daty"]. *)
Theorem convert_to_iso_never_raises (date_str : pystr) :
  (exists iso, convert_to_iso date_str = Ok iso) /\
  (strip date_str = [] -> convert_to_iso date_str = Ok Brak_daty) /\
  (length (date_tokens date_str) <> 3%nat -> convert_to_iso date_str = Ok Brak_daty) /\
  (forall day month_polish year,
     date_tokens date_str = [day; month_polish; year] ->
     polish_months !! month_polish = None ->
     convert_to_iso date_str = Ok Brak_daty).
Proof.
  split; [|split; [|split]].
  - unfold convert_to_iso, try_except.
    destruct (convert_to_iso_body date_str); eauto.
  - apply convert_to_iso_blank.
  - intros Hn. destruct (strip date_str) eqn:Hs; [now apply convert_to_iso_blank|].
    rewrite convert_to_iso_tokens by congruence.
    destruct (unpack3_wrong_count _ Hn) as [e ->]. reflexivity.
  - intros day month_polish year Ht Hm.
    destruct (strip date_str) eqn:Hs; [now apply convert_to_iso_blank|].
    rewrite convert_to_iso_tokens by congruence.
    rewrite Ht. cbn. unfold month_lookup. rewrite Hm. reflexivity.
Qed.

Lemma convert_to_iso_never_raises_witness :
  convert_to_iso (u "Opublikowana: 1 stycznia") = Ok Brak_daty /\
  convert_to_iso (u "5 invalidmonth 2023") = Ok Brak_daty.
Proof.
  split.
  - apply (proj1 (proj2 (proj2 (convert_to_iso_never_raises _)))).
    vm_compute. discriminate.
  - apply (proj2 (proj2 (proj2 (convert_to_iso_never_raises _)))
             (u "5") (u "invalidmonth") (u "2023")); vm_compute; reflexivity.
Defined.

(** C10: when the text, without the label ["Opublikowana:"] and stripped,
    splits into three tokens and the middle one is a known month name, the
    result is the third token, ["-"], the two-digit month number, ["-"], and
    the first token filled with zeros to two characters. Day and year are
    not examined: a first token of two or more characters is kept as it is,
    a single character gets one ["0"] (before it, or after it when it is a
    sign). *)
Theorem convert_to_iso_three_tokens (date_str day month_polish year month : pystr) :
  date_tokens date_str = [day; month_polish; year] ->
  polish_months !! month_polish = Some month ->
  convert_to_iso date_str = Ok (year ++ u "-" ++ month ++ u "-" ++ zfill 2 day) /\
  length month = 2%nat /\
  ((2 <= length day)%nat -> zfill 2 day = day) /\
  (forall c, day = [c] ->
     zfill 2 day = if (c =? 43) || (c =? 45) then [c; 48] else [48; c]).
Proof.
  intros Ht Hm. split; [|split; [|split]].
  - assert (Hs : strip date_str <> []).
    { intros Hs. apply blank_has_no_tokens in Hs. congruence. }
    rewrite convert_to_iso_tokens by assumption.
    rewrite Ht. cbn. unfold month_lookup. rewrite Hm. reflexivity.
  - apply month_values in Hm. simpl in Hm.
    repeat (destruct Hm as [<-|Hm]; [reflexivity|]). contradiction.
  - intros Hd. unfold zfill. destruct (Nat.leb_spec 2 (length day)); [reflexivity|lia].
  - intros c ->. unfold zfill. simpl. destruct ((c =? 43) || (c =? 45)); reflexivity.
Qed.

Lemma convert_to_iso_three_tokens_witness :
  convert_to_iso (u "99 stycznia 2024") = Ok (u "2024-01-99").
Proof.
  apply (proj1 (convert_to_iso_three_tokens
                  (u "99 stycznia 2024") (u "99") (u "stycznia") (u "2024") (u "01")
                  ltac:(vm_compute; reflexivity) ltac:(vm_compute; reflexivity))).
Defined.

(** ** Salary *)

(** The six fields of a record, whatever their values. *)
Lemma job_data_fields (v1 v2 v3 v4 v5 v6 : pyval) :
  let job_data := [ (u "Tytuł", v1); (u "Firma", v2); (u "Data_opublikowania", v3);
                    (u "Wynagrodzenie", v4); (u "Technologie", v5); (u "Link", v6) ] in
  dict_get job_data (u "Tytuł") = Some v1 /\
  dict_get job_data (u "Firma") = Some v2 /\
  dict_get job_data (u "Data_opublikowania") = Some v3 /\
  dict_get job_data (u "Wynagrodzenie") = Some v4 /\
  dict_get job_data (u "Technologie") = Some v5 /\
  dict_get job_data (u "Link") = Some v6.
Proof. repeat split; vm_compute; reflexivity. Qed.

Lemma parse_offer_inv offer job_data :
  parse_offer offer = Ok job_data ->
  exists v1 v2 v3 v6,
    job_data =
      [ (u "Tytuł", v1); (u "Firma", v2); (u "Data_opublikowania", v3);
        (u "Wynagrodzenie",
         PStr (clean_salary (match salary_tag offer with
                             | Some t => get_text t | None => Brak_wynagrodzenia end)));
        (u "Technologie",
         match tech_tags offer with
         | [] => PStr Brak_technologii
         | _ :: _ => PList (List.map get_text_strip (tech_tags offer))
         end);
        (u "Link", v6) ].
Proof.
  unfold parse_offer.
  destruct (convert_to_iso _) as [d|e]; [|discriminate].
  destruct (match link_tag offer with Some t => _ | None => _ end) as [l|e];
    [|discriminate].
  bind_step. intros [= <-]. eauto 10.
Qed.

Lemma parse_offers_lookup offers page_data i job_data :
  parse_offers offers = Ok page_data ->
  page_data !! i = Some job_data ->
  exists offer, offers !! i = Some offer /\ parse_offer offer = Ok job_data.
Proof.
  revert page_data i. induction offers as [|o offers IH]; intros page_data i; simpl.
  - intros [= <-]. discriminate.
  - destruct (parse_offer o) as [jd|e] eqn:Ho; [|discriminate]. bind_step.
    destruct (parse_offers offers) as [pd|e]; [|discriminate]. bind_step.
    intros [= <-]. destruct i as [|i]; simpl.
    + intros [= <-]. eauto.
    + intros Hi. exact (IH pd i eq_refl Hi).
Qed.

(** The claim of C4 as it is written: the empty string is mapped to the
    sentinel. [clean_salary] gives the empty string back. *)
Lemma clean_salary_empty_is_not_sentinel :
  clean_salary (u "") = u "" /\ clean_salary (u "") <> u "Brak wynagrodzenia".
Proof. split; vm_compute; [reflexivity|discriminate]. Qed.

(** C4, amended: [clean_salary] maps ["8000 zł / mies. (zal. od umowy)"] to
    ["8000"] and the empty string to the empty string. The sentinel
    ["Brak wynagrodzenia"] is chosen by [parse_page] when the block has no
    salary element, before [clean_salary] is called, and [clean_salary]
    leaves it as it is; when the element is there its text is cleaned,
    empty or not. *)
Theorem clean_salary_and_sentinel :
  clean_salary (u "8000 zł / mies. (zal. od umowy)") = u "8000" /\
  clean_salary (u "") = u "" /\
  clean_salary Brak_wynagrodzenia = u "Brak wynagrodzenia" /\
  (forall offer job_data,
     parse_offer offer = Ok job_data ->
     dict_get job_data (u "Wynagrodzenie") =
       Some (PStr (match salary_tag offer with
                   | None => u "Brak wynagrodzenia"
                   | Some t => clean_salary (get_text t)
                   end))).
Proof.
  split; [|split; [|split]]; try (vm_compute; reflexivity).
  intros offer job_data Hp.
  destruct (parse_offer_inv _ _ Hp) as (v1 & v2 & v3 & v6 & ->).
  rewrite (proj1 (proj2 (proj2 (proj2 (job_data_fields _ _ _ _ _ _))))).
  destruct (salary_tag offer); [reflexivity|].
  vm_compute. reflexivity.
Qed.

(** ** Technologies *)

Lemma get_text_strip_single t s : strings t = [s] -> get_text_strip t = strip s.
Proof.
  unfold get_text_strip, join. intros ->. simpl.
  destruct (strip s); simpl; [reflexivity|]. now rewrite app_nil_r.
Qed.

(** C7: in the record of a listing block, [Technologie] is the string
    ["Brak technologii"] (not a list) when no tag matched; when [n >= 1] tags
    matched it is the list of their [n] stripped texts in document order. *)
Theorem technologies_field (find_offers : pystr -> list Offer) (html : pystr)
    (page_data : list pydict) (i : nat) (job_data : pydict) :
  parse_page find_offers html = Ok page_data ->
  page_data !! i = Some job_data ->
  exists offer,
    find_offers html !! i = Some offer /\
    (tech_tags offer = [] ->
       dict_get job_data (u "Technologie") = Some (PStr (u "Brak technologii"))) /\
    (tech_tags offer <> [] ->
       exists l,
         dict_get job_data (u "Technologie") = Some (PList l) /\
         length l = length (tech_tags offer) /\
         (forall j t, tech_tags offer !! j = Some t -> l !! j = Some (get_text_strip t)) /\
         (forall j t s, tech_tags offer !! j = Some t -> strings t = [s] ->
            l !! j = Some (strip s))).
Proof.
  intros Hp Hi. unfold parse_page in Hp.
  destruct (parse_offers_lookup _ _ _ _ Hp Hi) as (offer & Ho & Hj).
  exists offer. split; [exact Ho|].
  destruct (parse_offer_inv _ _ Hj) as (v1 & v2 & v3 & v6 & ->).
  rewrite (proj1 (proj2 (proj2 (proj2 (proj2 (job_data_fields _ _ _ _ _ _)))))).
  split.
  - intros ->. reflexivity.
  - intros Hne. destruct (tech_tags offer) as [|t0 ts] eqn:Et; [contradiction|].
    exists (List.map get_text_strip (t0 :: ts)).
    split; [reflexivity|]. split; [apply length_map|].
    assert (Hl : forall j t, (t0 :: ts) !! j = Some t ->
                 List.map get_text_strip (t0 :: ts) !! j = Some (get_text_strip t)).
    { intros j t Hjt. change (List.map get_text_strip (t0 :: ts))
        with (get_text_strip <$> (t0 :: ts)).
      rewrite list_lookup_fmap, Hjt. reflexivity. }
    split; [exact Hl|].
    intros j t s Hjt Hs. rewrite (Hl j t Hjt). f_equal. now apply get_text_strip_single.
Qed.

(** ** The record sink *)

Ltac io_step :=
  cbv beta iota delta [mbind io_bind mret io_ret logger raise try_except_IOError].

Lemma dict_to_list_ok fieldnames d :
  keys d ⊆ fieldnames -> dict_to_list fieldnames d = Ok (row_of fieldnames d).
Proof.
  intros Hk. unfold dict_to_list.
  replace (forallb _ (keys d)) with true; [reflexivity|].
  symmetry. apply forallb_forall. intros k Hin.
  apply bool_decide_eq_true. apply Hk. now apply list_elem_of_In.
Qed.

(** Rows are appended one per record while the destination takes them. *)
Lemma writerows_writable dsk filename fieldnames rowdicts w old :
  dsk filename = Writable ->
  Forall (fun d => keys d ⊆ fieldnames) rowdicts ->
  files w !! filename = Some old ->
  writerows dsk filename fieldnames rowdicts w =
    (Ok tt, {| files := <[filename := old ++ List.map (row_of fieldnames) rowdicts]> (files w);
               logged := logged w |}).
Proof.
  intros Hd Hk. revert w old.
  induction Hk as [|d rest Hd1 _ IH]; intros w old Hold; simpl.
  - rewrite app_nil_r, insert_id by assumption. now destruct w.
  - rewrite (dict_to_list_ok _ _ Hd1). io_step.
    unfold write_row at 1. rewrite Hd, Hold. simpl.
    rewrite (IH _ (old ++ [row_of fieldnames d])); simpl.
    + rewrite insert_insert_eq, <- app_assoc. reflexivity.
    + apply lookup_insert_eq.
Qed.

Lemma row_of_own_keys d : NoDup (keys d) -> row_of (keys d) d = List.map snd d.
Proof.
  unfold row_of. induction d as [|[k v] d IH]; [reflexivity|].
  simpl. intros Hnd. apply NoDup_cons in Hnd as [Hk Hnd].
  rewrite decide_True by reflexivity. simpl. f_equal.
  rewrite <- IH by assumption. apply map_ext_in. intros k' Hin.
  rewrite decide_False; [reflexivity|].
  intros ->. apply Hk. now apply list_elem_of_In.
Qed.

(** C8: with no record, [save_to_csv] logs a warning and leaves the file
    store as it was: the destination is neither created nor emptied. With
    records of the first one's fields and a destination that can be written,
    the file holds the first record's field names in their order, then one
    row per record in the order of [data], each with the record's values
    under those names. *)
Theorem save_to_csv_rows (dsk : pystr -> disk) (filename : pystr) (w : world) :
  save_to_csv dsk [] filename w =
    (Ok PNone, {| files := files w;
                  logged := logged w ++ [(WARNING, u "No data to save")] |}) /\
  (forall first rest,
     dsk filename = Writable ->
     Forall (fun d => keys d ⊆ keys first) rest ->
     let data := first :: rest in
     let rows := List.map (row_of (keys first)) data in
     save_to_csv dsk data filename w =
       (Ok PNone, {| files := <[filename := List.map PStr (keys first) :: rows]> (files w);
                     logged := logged w ++ [(INFO, u "Data saved to " ++ filename)] |}) /\
     length rows = length data /\
     (forall i d, data !! i = Some d -> rows !! i = Some (row_of (keys first) d)) /\
     (forall d, keys d = keys first -> NoDup (keys d) ->
        row_of (keys first) d = List.map snd d)).
Proof.
  split; [reflexivity|].
  intros first rest Hd Hk data rows. split; [|split; [|split]].
  - unfold save_to_csv, data. io_step.
    unfold open_w at 1. rewrite Hd.
    unfold writeheader, write_row at 1. cbn [files logged]. rewrite Hd.
    rewrite lookup_insert_eq. cbn [default app].
    rewrite (writerows_writable dsk filename (keys first) (first :: rest) _
               [List.map PStr (keys first)]); cbn [files logged].
    + rewrite !insert_insert_eq. reflexivity.
    + assumption.
    + constructor; [intros k Hin; exact Hin|assumption].
    + apply lookup_insert_eq.
  - apply length_map.
  - intros i d Hi. unfold rows.
    change (List.map (row_of (keys first)) data) with (row_of (keys first) <$> data).
    rewrite list_lookup_fmap, Hi. reflexivity.
  - intros d <-. apply row_of_own_keys.
Qed.

Lemma save_to_csv_rows_witness :
  save_to_csv (fun _ => Writable) [Samples.full_record; Samples.bare_record]
    Samples.job_listings Samples.empty_world =
  (Ok PNone,
   {| files :=
        <[Samples.job_listings :=
            List.map PStr (keys Samples.full_record)
            :: List.map (row_of (keys Samples.full_record))
                 [Samples.full_record; Samples.bare_record]]>
          (files Samples.empty_world);
      logged := logged Samples.empty_world
                ++ [(INFO, u "Data saved to " ++ Samples.job_listings)] |}).
Proof.
  refine (proj1 (proj2 (save_to_csv_rows (fun _ => Writable) Samples.job_listings
                          Samples.empty_world)
                   Samples.full_record [Samples.bare_record] eq_refl _)).
  constructor; [|constructor]. vm_compute. intros k Hk. exact Hk.
Defined.

(** Once the destination refuses a write, the rows already taken stay and
    the exception leaves [writerows]. *)
Lemma writerows_write_fails dsk filename fieldnames rowdicts w old n msg :
  dsk filename = WriteFails n msg ->
  Forall (fun d => keys d ⊆ fieldnames) rowdicts ->
  files w !! filename = Some old ->
  (length old <= n < length old + length rowdicts)%nat ->
  writerows dsk filename fieldnames rowdicts w =
    (Raise (Exn OSError msg),
     {| files := <[filename := take n (old ++ List.map (row_of fieldnames) rowdicts)]> (files w);
        logged := logged w |}).
Proof.
  intros Hd Hk. revert w old.
  induction Hk as [|d rest Hd1 _ IH]; intros w old Hold Hn; simpl in *; [lia|].
  rewrite (dict_to_list_ok _ _ Hd1). io_step.
  unfold write_row at 1. rewrite Hd, Hold. simpl.
  destruct (Nat.leb_spec n (length old)) as [Hle|Hlt].
  - assert (n = length old) as -> by lia.
    rewrite take_app_length, insert_id by assumption. now destruct w.
  - rewrite (IH _ (old ++ [row_of fieldnames d])); simpl.
    + rewrite insert_insert_eq, <- app_assoc. reflexivity.
    + apply lookup_insert_eq.
    + rewrite length_app. simpl. lia.
Qed.

Lemma io_bind_ok {A B} (m : io A) (k : A -> io B) w v w' :
  (m ≫= k) w = (Ok v, w') -> exists a w1, m w = (Ok a, w1) /\ k a w1 = (Ok v, w').
Proof.
  unfold mbind, io_bind. destruct (m w) as [[a|e] w1]; [eauto|discriminate].
Qed.

(** The claim of C9 as it is written: the caller of a failed call learns of
    the failure. The call with a destination that cannot be opened returns
    what the successful call returns, [None]. *)
Lemma save_to_csv_failure_not_reported :
  ~ reports_failure
      (fst (save_to_csv (fun _ => OpenFails (u "Permission denied"))
              [Samples.full_record] Samples.job_listings Samples.empty_world))
      (fst (save_to_csv (fun _ => Writable)
              [Samples.full_record] Samples.job_listings Samples.empty_world)).
Proof. intros Hr. apply Hr. vm_compute. reflexivity. Qed.

(** C9, amended: an [IOError] raised while the file is opened or written is
    caught and logged as an error, and [save_to_csv] returns [None], the
    value it returns after a successful write: nothing is raised to the
    caller, and nothing tells the caller of the failure but the log. No
    call of [save_to_csv] ever raises an [IOError]. *)
Theorem save_to_csv_io_failure (dsk : pystr -> disk) (filename : pystr) (w : world) :
  (forall first rest msg,
     dsk filename = OpenFails msg ->
     save_to_csv dsk (first :: rest) filename w =
       (Ok PNone, {| files := files w;
                     logged := logged w ++ [(ERROR, u "Error saving to CSV: " ++ msg)] |})) /\
  (forall first rest n msg,
     dsk filename = WriteFails n msg ->
     Forall (fun d => keys d ⊆ keys first) rest ->
     (n <= length (first :: rest))%nat ->
     save_to_csv dsk (first :: rest) filename w =
       (Ok PNone,
        {| files := <[filename := take n (List.map PStr (keys first)
                                          :: List.map (row_of (keys first)) (first :: rest))]>
                      (files w);
           logged := logged w ++ [(ERROR, u "Error saving to CSV: " ++ msg)] |})) /\
  (forall data e, fst (save_to_csv dsk data filename w) = Raise e -> is_IOError e = false) /\
  (forall data v, fst (save_to_csv dsk data filename w) = Ok v -> v = PNone).
Proof.
  split; [|split; [|split]].
  - intros first rest msg Hd. unfold save_to_csv. io_step.
    unfold open_w. rewrite Hd. reflexivity.
  - intros first rest n msg Hd Hk Hn. unfold save_to_csv. io_step.
    unfold open_w at 1. rewrite Hd.
    unfold writeheader, write_row at 1. cbn [files logged]. rewrite Hd.
    rewrite lookup_insert_eq. cbn [default from_option id app length].
    destruct (Nat.leb_spec n 0) as [H0|H0]; cbv beta iota.
    + assert (n = 0)%nat as -> by lia. reflexivity.
    + rewrite (writerows_write_fails dsk filename (keys first) (first :: rest) _
                 [List.map PStr (keys first)] n msg); cbn [files logged length].
      * rewrite !insert_insert_eq. reflexivity.
      * assumption.
      * constructor; [intros k Hin; exact Hin|assumption].
      * apply lookup_insert_eq.
      * simpl in Hn. lia.
  - intros [|first rest] e; [discriminate|].
    unfold save_to_csv, try_except_IOError.
    match goal with |- context [(?body ≫= _) w] => destruct ((body ≫= _) w) as [[v|e0] w'] end.
    + discriminate.
    + destruct (is_IOError e0) eqn:E; [io_step; discriminate|]. now intros [= <-].
  - intros [|first rest] v; [now intros [= <-]|].
    unfold save_to_csv, try_except_IOError.
    match goal with |- context [(?body ≫= ?k) w] =>
      destruct ((body ≫= k) w) as [[v0|e0] w'] eqn:Hb end.
    + intros [= <-].
      repeat (apply io_bind_ok in Hb as (? & ? & _ & Hb)).
      now injection Hb as <- _.
    + destruct (is_IOError e0); [io_step; now intros [= <-]|discriminate].
Qed.

Lemma save_to_csv_io_failure_witness :
  save_to_csv (fun _ => WriteFails 2 (u "No space left on device"))
    [Samples.full_record; Samples.bare_record] Samples.job_listings Samples.empty_world =
  (Ok PNone,
   {| files :=
        <[Samples.job_listings :=
            take 2 (List.map PStr (keys Samples.full_record)
                    :: List.map (row_of (keys Samples.full_record))
                         [Samples.full_record; Samples.bare_record])]>
          (files Samples.empty_world);
      logged := logged Samples.empty_world
                ++ [(ERROR, u "Error saving to CSV: " ++ u "No space left on device")] |}).
Proof.
  refine (proj1 (proj2 (save_to_csv_io_failure
                          (fun _ => WriteFails 2 (u "No space left on device"))
                          Samples.job_listings Samples.empty_world))
            Samples.full_record [Samples.bare_record] 2%nat
            (u "No space left on device") eq_refl _ _).
  - constructor; [|constructor]. vm_compute. intros k Hk. exact Hk.
  - simpl. lia.
Defined.

(** ** The task pool *)

Local Open Scope nat_scope.

(** *** Sums and collections over the task list *)

Lemma total_insert (g : phase -> nat) (l : list phase) i p q :
  l !! i = Some q ->
  (total g (<[i := p]> l) + g q = total g l + g p)%nat.
Proof.
  unfold total. revert i. induction l as [|x l IH]; intros [|i]; simpl; try discriminate.
  - intros [= ->]. lia.
  - intros Hi. specialize (IH i Hi). lia.
Qed.

Lemma count_insert (f : phase -> bool) (l : list phase) i p q :
  l !! i = Some q ->
  (count f (<[i := p]> l) + (if f q then 1 else 0)
   = count f l + (if f p then 1 else 0))%nat.
Proof. apply (total_insert (fun p => if f p then 1 else 0)%nat). Qed.

Lemma count_none (f : phase -> bool) (l : list phase) :
  Forall (fun p => f p = false) l -> count f l = 0%nat.
Proof.
  unfold count, total. induction 1 as [|x l Hx _ IH]; simpl; [reflexivity|].
  now rewrite Hx, IH.
Qed.

Lemma count_le (f g : phase -> bool) (l : list phase) :
  (forall p, f p = true -> g p = true) -> (count f l <= count g l)%nat.
Proof.
  intros Hfg. unfold count, total. induction l as [|x l IH]; simpl; [lia|].
  destruct (f x) eqn:Ef; [rewrite (Hfg x Ef)|destruct (g x)]; lia.
Qed.

Lemma gathered_insert c (l : list phase) i p q :
  l !! i = Some q -> c i q = [] ->
  gathered c (<[i := p]> l) ≡ₚ gathered c l ++ c i p.
Proof.
  unfold gathered. revert c i. induction l as [|x l IH]; intros c [|i]; simpl; try discriminate.
  - intros [= ->] Hq. rewrite Hq. simpl. apply Permutation_app_comm.
  - intros Hi Hq. rewrite (IH (c ∘ S) i Hi Hq). simpl. now rewrite app_assoc.
Qed.

Lemma gathered_all_done c (l : list phase) off :
  Forall (fun p => p = Done) l ->
  gathered (fun j => c (off + j)%nat) l = flat_map (fun i => c i Done) (seq off (length l)).
Proof.
  unfold gathered. intros Hl. revert off.
  induction Hl as [|x l -> _ IH]; intros off; simpl; [reflexivity|].
  rewrite Nat.add_0_r. f_equal. rewrite <- IH.
  f_equal. apply imap_ext. intros j y _. simpl. f_equal. lia.
Qed.

Lemma flat_map_filter {A B} (f : A -> list B) (P : A -> bool) (l : list A) :
  (forall a, P a = false -> f a = []) ->
  flat_map f l = flat_map f (List.filter P l).
Proof.
  intros Hf. induction l as [|a l IH]; simpl; [reflexivity|].
  destruct (P a) eqn:E; simpl; [now rewrite IH|]. now rewrite (Hf a E).
Qed.

Lemma lookup_insert_all {A} (Q : nat -> A -> Prop) (l : list A) j q :
  (forall i p, l !! i = Some p -> Q i p) -> Q j q ->
  forall i p, <[j := q]> l !! i = Some p -> Q i p.
Proof.
  intros Hl Hq i p. destruct (decide (j = i)) as [->|Hne].
  - intros Hi. destruct (decide (i < length l)%nat) as [Hlt|Hge].
    + rewrite list_lookup_insert_eq in Hi by assumption. now injection Hi as <-.
    + rewrite list_insert_ge in Hi by lia. apply lookup_lt_Some in Hi. lia.
  - rewrite list_lookup_insert_ne by assumption. apply Hl.
Qed.

(** *** The invariant *)

Section PoolProperties.

Context `{Scraper}.
Variable urls : list pystr.
Variable max_workers : Z.
Variable renderer : nat -> session.

Local Abbreviation step := (step urls renderer).
Local Abbreviation init := (init urls max_workers).
Local Abbreviation run := (run urls max_workers renderer).
Local Abbreviation pool_inv := (pool_inv urls max_workers renderer).
Local Abbreviation phase_ok := (phase_ok urls renderer).
Local Abbreviation contribution := (contribution renderer).
Local Abbreviation extraction := (extraction renderer).

Lemma phase_ok_mono lg lg' i p :
  (forall x, x ∈ lg -> x ∈ lg') -> phase_ok lg i p -> phase_ok lg' i p.
Proof.
  intros Hsub. destruct p; simpl; try tauto.
  - intros [-> Hf]. split; [reflexivity|]. intros e He. apply Hsub, Hf, He.
  - intros [Hx Hf]. split; [exact Hx|]. intros e He. apply Hsub, Hf, He.
Qed.

Lemma lookup_all_pending (l : list pystr) i p :
  List.map (fun _ => Pending) l !! i = Some p -> p = Pending.
Proof.
  change (List.map (fun _ => Pending) l) with ((fun _ => Pending) <$> l).
  rewrite list_lookup_fmap. destruct (l !! i); [now intros [= <-]|discriminate].
Qed.

Lemma init_inv : pool_inv 0 init.
Proof.
  unfold BaseScraper.init. destruct (Z.ltb_spec max_workers 0) as [Hneg|Hpos].
  - constructor; simpl.
    + lia.
    + unfold count, total. simpl. lia.
    + intros i. rewrite elem_of_nil. split; [tauto|discriminate].
    + constructor.
    + congruence.
    + discriminate.
    + reflexivity.
    + now left.
  - constructor; simpl.
    + intros _. apply length_map.
    + rewrite count_none; [lia|]. apply Forall_forall. intros p Hp.
      apply list_elem_of_In, in_map_iff in Hp as (? & <- & _). reflexivity.
    + intros i. rewrite elem_of_nil. split; [tauto|].
      intros Hi. apply lookup_all_pending in Hi. discriminate.
    + constructor.
    + congruence.
    + intros i p Hi. apply lookup_all_pending in Hi as ->. exact I.
    + unfold gathered. induction urls as [|x l IH] using rev_ind; [reflexivity|].
      rewrite map_app. change (List.map (fun _ => Pending) l) with ((fun _ => Pending) <$> l).
      rewrite imap_app, concat_app. simpl. rewrite app_nil_r. exact IH.
    + exact I.
Qed.

(** The queue of the semaphore and the [Waiting] tasks, under a change of
    one phase. *)
Lemma lookup_insert_phase (l : list phase) j q pj i p :
  l !! j = Some pj ->
  <[j := q]> l !! i = Some p <-> (i = j /\ p = q) \/ (i <> j /\ l !! i = Some p).
Proof.
  intros Hj. destruct (decide (j = i)) as [->|Hne].
  - rewrite list_lookup_insert_eq by (eapply lookup_lt_Some; eassumption).
    split; [intros [= <-]; now left|]. intros [[_ ->]|[Hn _]]; [reflexivity|congruence].
  - rewrite list_lookup_insert_ne by assumption.
    split; [intros Hi; right; split; congruence|]. intros [[-> _]|[_ Hi]]; congruence.
Qed.

Lemma waiting_keep (l : list phase) (ws : list nat) j q pj :
  (forall i, i ∈ ws <-> l !! i = Some Waiting) ->
  l !! j = Some pj -> pj <> Waiting -> q <> Waiting ->
  forall i, i ∈ ws <-> <[j := q]> l !! i = Some Waiting.
Proof.
  intros Hw Hj Hpj Hq i. rewrite (lookup_insert_phase l j q pj i Waiting Hj), Hw.
  split.
  - intros Hi. right. split; [congruence|assumption].
  - intros [[_ E]|[_ Hi]]; [congruence|assumption].
Qed.

Lemma waiting_enqueue (l : list phase) (ws : list nat) j pj :
  (forall i, i ∈ ws <-> l !! i = Some Waiting) ->
  l !! j = Some pj -> pj <> Waiting ->
  forall i, i ∈ ws ++ [j] <-> <[j := Waiting]> l !! i = Some Waiting.
Proof.
  intros Hw Hj Hpj i.
  rewrite (lookup_insert_phase l j Waiting pj i Waiting Hj), elem_of_app, Hw, list_elem_of_singleton.
  split.
  - intros [Hi | ->]; [right; split; congruence|now left].
  - intros [[-> _]|[_ Hi]]; [now right|now left].
Qed.

Lemma waiting_dequeue (l : list phase) (w : nat) (ws : list nat) q :
  (forall i, i ∈ w :: ws <-> l !! i = Some Waiting) ->
  NoDup (w :: ws) -> q <> Waiting ->
  forall i, i ∈ ws <-> <[w := q]> l !! i = Some Waiting.
Proof.
  intros Hw Hnd Hq i. apply NoDup_cons in Hnd as [Hnw _].
  assert (Hlw : l !! w = Some Waiting) by (apply Hw; left).
  rewrite (lookup_insert_phase l w q Waiting i Waiting Hlw), <- Hw, elem_of_cons.
  split.
  - intros Hi. right. split; [intros ->; contradiction|now right].
  - intros [[_ E]|[Hn [->|Hi]]]; [congruence | contradiction | assumption].
Qed.

Lemma acquire_inv i s :
  pool_inv 0 s -> outcome s = Gathering -> tasks s !! i = Some Pending ->
  pool_inv 0 (acquire i s).
Proof.
  intros [Hlen Hper Hwait Hnd Hlock Hph Hdata _] Hout Hi.
  assert (Hfresh : i ∉ waiters s).
  { rewrite Hwait, Hi. discriminate. }
  assert (Hqueue : pool_inv 0
            {| tasks := <[i := Waiting]> (tasks s); sem_value := sem_value s;
               waiters := waiters s ++ [i]; data := data s; log := log s;
               outcome := outcome s |} \/ (sem_value s <> 0%nat /\ waiters s = [])).
  { destruct (Nat.eq_dec (sem_value s) 0) as [Hz|Hz].
    2: destruct (waiters s) as [|w ws] eqn:Ew; [now right|];
       now specialize (Hlock ltac:(discriminate)).
    left. constructor; simpl.
    - intros Hk. rewrite length_insert. auto.
    - pose proof (count_insert in_cycle (tasks s) i Waiting Pending Hi) as Hc.
      simpl in Hc. lia.
    - apply (waiting_enqueue _ _ _ Pending); [assumption..|discriminate].
    - apply NoDup_app. repeat split; [assumption| |apply NoDup_singleton].
      intros x Hx Hx'. apply list_elem_of_singleton in Hx' as ->. contradiction.
    - intros _. exact Hz.
    - apply (lookup_insert_all (phase_ok (log s))); [exact Hph|exact I].
    - rewrite (gathered_insert contribution _ i Waiting Pending Hi eq_refl).
      simpl. now rewrite app_nil_r.
    - rewrite Hout. exact I. }
  unfold acquire.
  destruct (sem_value s) as [|v] eqn:Hv.
  { destruct Hqueue as [Hq|[Hz _]]; [exact Hq|congruence]. }
  destruct (waiters s) as [|w ws] eqn:Ew.
  2: { destruct Hqueue as [Hq|[_ E]]; [exact Hq|discriminate]. }
  constructor; simpl.
  - intros Hk. rewrite length_insert. auto.
  - pose proof (count_insert in_cycle (tasks s) i Fetching Pending Hi) as Hc.
    simpl in Hc. lia.
  - apply (waiting_keep _ _ _ _ Pending); [assumption..|discriminate|discriminate].
  - constructor.
  - congruence.
  - apply (lookup_insert_all (phase_ok (log s))); [exact Hph|exact I].
  - rewrite (gathered_insert contribution _ i Fetching Pending Hi eq_refl).
    simpl. now rewrite app_nil_r.
  - rewrite Hout. exact I.
Qed.

Lemma worker_inv i s :
  pool_inv 0 s -> outcome s = Gathering -> tasks s !! i = Some Fetching ->
  pool_inv 0
    {| tasks := <[i := Fetched (fetch_page (url_of urls i) (renderer i)).1]> (tasks s);
       sem_value := sem_value s; waiters := waiters s; data := data s;
       log := log s ++ (fetch_page (url_of urls i) (renderer i)).2;
       outcome := outcome s |}.
Proof.
  intros [Hlen Hper Hwait Hnd Hlock Hph Hdata _] Hout Hi.
  constructor; simpl.
  - intros Hk. rewrite length_insert. auto.
  - pose proof (count_insert in_cycle (tasks s) i
                  (Fetched (fetch_page (url_of urls i) (renderer i)).1) Fetching Hi) as Hc.
    simpl in Hc. lia.
  - apply (waiting_keep _ _ _ _ Fetching); [assumption..|discriminate|discriminate].
  - assumption.
  - assumption.
  - apply (lookup_insert_all (phase_ok _)).
    + intros j p Hj. apply (phase_ok_mono (log s)); [|now apply Hph].
      intros x Hx. apply elem_of_app. now left.
    + split; [reflexivity|]. intros e He. unfold fetch_page. rewrite He. simpl.
      apply elem_of_app. right. now left.
  - rewrite (gathered_insert contribution _ i _ Fetching Hi eq_refl).
    simpl. now rewrite app_nil_r.
  - rewrite Hout. exact I.
Qed.

(** The end of a task's cycle, before its permit is released. *)
Lemma finish_inv i html s p' d' lg' :
  pool_inv 0 s -> outcome s = Gathering -> tasks s !! i = Some (Fetched html) ->
  in_cycle p' = false -> p' <> Waiting ->
  (forall x, x ∈ log s -> x ∈ lg') -> phase_ok lg' i p' ->
  d' ≡ₚ data s ++ contribution i p' ->
  pool_inv 1
    {| tasks := <[i := p']> (tasks s); sem_value := sem_value s;
       waiters := waiters s; data := d'; log := lg'; outcome := outcome s |}.
Proof.
  intros [Hlen Hper Hwait Hnd Hlock Hph Hdata _] Hout Hi Hcyc Hnw Hlg Hp' Hd'.
  constructor; simpl.
  - intros Hk. rewrite length_insert. auto.
  - pose proof (count_insert in_cycle (tasks s) i p' (Fetched html) Hi) as Hc.
    rewrite Hcyc in Hc. simpl in Hc. lia.
  - apply (waiting_keep _ _ _ _ (Fetched html)); [assumption..|discriminate|assumption].
  - assumption.
  - assumption.
  - apply (lookup_insert_all (phase_ok _)); [|assumption].
    intros j p Hj. apply (phase_ok_mono (log s)); [assumption|now apply Hph].
  - rewrite Hd', Hdata.
    now rewrite (gathered_insert contribution _ i p' (Fetched html) Hi eq_refl).
  - rewrite Hout. exact I.
Qed.

Lemma release_inv s :
  pool_inv 1 s -> outcome s = Gathering -> pool_inv 0 (release s).
Proof.
  intros [Hlen Hper Hwait Hnd Hlock Hph Hdata _] Hout. unfold release.
  destruct (waiters s) as [|w ws] eqn:Ew.
  - constructor; simpl; try assumption.
    + lia.
    + congruence.
    + rewrite Hout. exact I.
  - assert (Hw : tasks s !! w = Some Waiting) by (apply Hwait; left).
    constructor; simpl.
    + intros Hk. rewrite length_insert. auto.
    + pose proof (count_insert in_cycle (tasks s) w Fetching Waiting Hw) as Hc.
      simpl in Hc. lia.
    + apply waiting_dequeue; [assumption..|discriminate].
    + now apply NoDup_cons in Hnd as [_ Hnd].
    + intros _. apply Hlock. discriminate.
    + apply (lookup_insert_all (phase_ok _)); [assumption|exact I].
    + rewrite (gathered_insert contribution _ w Fetching Waiting Hw eq_refl).
      simpl. now rewrite app_nil_r.
    + rewrite Hout. exact I.
Qed.

Lemma extraction_of_fetched i html :
  html = (fetch_page (url_of urls i) (renderer i)).1 ->
  extraction i = if truthy html then BaseScraper.parse_page (default [] html) else Ok [].
Proof.
  intros ->. unfold BaseScraper.extraction.
  unfold fetch_page. destruct (render (renderer i)) as [page|e]; reflexivity.
Qed.

(** [resume] ends the cycle of task [i], then releases its permit. *)
Lemma resume_mid i html s :
  pool_inv 0 s -> outcome s = Gathering -> tasks s !! i = Some (Fetched html) ->
  exists s1 p',
    resume urls i html s = release s1 /\ pool_inv 1 s1 /\ outcome s1 = Gathering /\
    tasks s1 = <[i := p']> (tasks s) /\ rank p' = 0.
Proof.
  intros Hinv Hout Hi.
  destruct (inv_phase _ _ _ _ _ Hinv i _ Hi) as [Hhtml Hlogged].
  pose proof (extraction_of_fetched i html Hhtml) as Hex.
  unfold resume. destruct (truthy html) eqn:Ht.
  - destruct (BaseScraper.parse_page (default [] html)) as [page_data|e] eqn:Hparse.
    + eexists _, Done. split; [reflexivity|]. split; [|now simpl].
      apply (finish_inv i html s Done); try assumption; try reflexivity; try discriminate.
      * intros x Hx. apply elem_of_app. now left.
      * split; [eauto|]. intros e He. apply elem_of_app. left. now apply Hlogged.
      * simpl. now rewrite Hex.
    + eexists _, (Failed e). split; [reflexivity|]. split; [|now simpl].
      apply (finish_inv i html s (Failed e)); try assumption; try reflexivity; try discriminate.
      * auto.
      * simpl. now rewrite app_nil_r.
  - eexists _, Done. split; [reflexivity|]. split; [|now simpl].
    apply (finish_inv i html s Done); try assumption; try reflexivity; try discriminate.
    + auto.
    + split; [eauto|assumption].
    + simpl. rewrite Hex. simpl. now rewrite app_nil_r.
Qed.

Lemma resume_inv i html s :
  pool_inv 0 s -> outcome s = Gathering -> tasks s !! i = Some (Fetched html) ->
  pool_inv 0 (resume urls i html s).
Proof.
  intros Hinv Hout Hi.
  destruct (resume_mid i html s Hinv Hout Hi) as (s1 & p' & -> & Hmid & Hout1 & _).
  now apply release_inv.
Qed.

Lemma forallb_is_done (l : list phase) :
  forallb is_done l = true <-> Forall (fun p => p = Done) l.
Proof.
  rewrite forallb_forall, Forall_forall. split; intros Hl p Hp.
  - apply list_elem_of_In, Hl in Hp. now destruct p.
  - apply list_elem_of_In, Hl in Hp. now subst.
Qed.

(** Every step keeps the invariant. *)
Lemma step_inv s ev s' : pool_inv 0 s -> step s ev = Some s' -> pool_inv 0 s'.
Proof.
  intros Hinv. unfold BaseScraper.step.
  destruct (outcome s) eqn:Hout; [|discriminate..].
  destruct ev as [i|i|i| |i].
  - destruct (tasks s !! i) as [[]|] eqn:Hi; try discriminate.
    intros [= <-]. now apply acquire_inv.
  - destruct (tasks s !! i) as [[]|] eqn:Hi; try discriminate.
    pose proof (worker_inv i s Hinv Hout Hi) as Hw.
    destruct (fetch_page (url_of urls i) (renderer i)) as [html lines].
    intros [= <-]. simpl in Hw. rewrite Hout in Hw. exact Hw.
  - destruct (tasks s !! i) as [[]|] eqn:Hi; try discriminate.
    intros [= <-]. now apply resume_inv.
  - destruct (forallb is_done (tasks s)) eqn:Hd; [|discriminate].
    intros [= <-]. destruct Hinv. constructor; simpl; try assumption.
    now apply forallb_is_done.
  - destruct (tasks s !! i) as [[]|] eqn:Hi; try discriminate.
    intros [= <-]. destruct Hinv. constructor; simpl; try assumption.
    right. eauto.
Qed.

Lemma exec_inv s evs s' : pool_inv 0 s -> exec urls renderer s evs = Some s' -> pool_inv 0 s'.
Proof.
  revert s. induction evs as [|ev evs IH]; intros s Hinv; simpl.
  - now intros [= <-].
  - destruct (step s ev) as [s1|] eqn:Hs; [|discriminate].
    apply IH. eapply step_inv; eassumption.
Qed.

Lemma run_inv evs s : run evs = Some s -> pool_inv 0 s.
Proof. apply exec_inv, init_inv. Qed.

(** *** Termination *)

Lemma release_measure s : pool_inv 1 s -> measure (release s) <= measure s.
Proof.
  intros Hinv. unfold release, measure. destruct (waiters s) as [|w ws] eqn:Ew; simpl; [lia|].
  assert (Hw : tasks s !! w = Some Waiting).
  { apply (inv_waiting _ _ _ _ _ Hinv). rewrite Ew. left. }
  pose proof (total_insert rank (tasks s) w Fetching Waiting Hw) as Ht. simpl in Ht. lia.
Qed.

(** Every step brings the run closer to its end. *)
Lemma step_measure s ev s' :
  pool_inv 0 s -> step s ev = Some s' -> measure s' < measure s.
Proof.
  intros Hinv. unfold BaseScraper.step.
  destruct (outcome s) eqn:Hout; [|discriminate..].
  destruct ev as [i|i|i| |i].
  - destruct (tasks s !! i) as [[]|] eqn:Hi; try discriminate.
    intros [= <-]. unfold acquire, measure. rewrite Hout.
    pose proof (total_insert rank (tasks s) i Fetching Pending Hi) as Hf.
    pose proof (total_insert rank (tasks s) i Waiting Pending Hi) as Hw.
    destruct (sem_value s); [|destruct (waiters s)]; simpl in *; rewrite ?Hout; lia.
  - destruct (tasks s !! i) as [[]|] eqn:Hi; try discriminate.
    destruct (fetch_page (url_of urls i) (renderer i)) as [html lines].
    intros [= <-]. unfold measure. simpl. rewrite Hout.
    pose proof (total_insert rank (tasks s) i (Fetched html) Fetching Hi) as Hf.
    simpl in Hf. lia.
  - destruct (tasks s !! i) as [[]|] eqn:Hi; try discriminate.
    intros [= <-].
    destruct (resume_mid i html s Hinv Hout Hi) as (s1 & p' & -> & Hmid & Hout1 & Ht & Hr).
    pose proof (release_measure s1 Hmid) as Hrel.
    pose proof (total_insert rank (tasks s) i p' (Fetched html) Hi) as Hf.
    unfold measure in *. rewrite Hout1, Ht in Hrel. rewrite Hout. simpl in Hf. lia.
  - destruct (forallb is_done (tasks s)); [|discriminate].
    intros [= <-]. unfold measure. simpl. rewrite Hout. lia.
  - destruct (tasks s !! i) as [[]|] eqn:Hi; try discriminate.
    intros [= <-]. unfold measure. simpl. rewrite Hout. lia.
Qed.

Lemma exec_measure s evs s' :
  pool_inv 0 s -> exec urls renderer s evs = Some s' ->
  length evs + measure s' <= measure s.
Proof.
  revert s. induction evs as [|ev evs IH]; intros s Hinv; simpl.
  - intros [= <-]. lia.
  - destruct (step s ev) as [s1|] eqn:Hs; [|discriminate].
    intros Hex. pose proof (step_measure _ _ _ Hinv Hs).
    pose proof (IH s1 (step_inv _ _ _ Hinv Hs) Hex). lia.
Qed.

Lemma init_measure : measure init <= 4 * length urls + 1.
Proof.
  unfold BaseScraper.init, measure, total.
  destruct (max_workers <? 0)%Z; simpl; [lia|].
  induction urls as [|x l IH]; simpl in *; lia.
Qed.

(** *** No deadlock *)

Lemma progress s :
  (1 <= max_workers)%Z -> pool_inv 0 s -> outcome s = Gathering ->
  exists ev s', step s ev = Some s'.
Proof.
  intros Hk Hinv Hout. unfold BaseScraper.step. rewrite Hout.
  destruct (decide (Exists (fun p => ready p = true) (tasks s))) as [Hex|Hno].
  - apply Exists_exists in Hex as (p & Hp & Hr).
    apply list_elem_of_lookup in Hp as [i Hi].
    destruct p; try discriminate.
    + exists (Start i). rewrite Hi. eauto.
    + exists (WorkerDone i). rewrite Hi.
      destruct (fetch_page (url_of urls i) (renderer i)). eauto.
    + exists (Resume i). rewrite Hi. eauto.
    + exists (GatherRaise i). rewrite Hi. eauto.
  - apply not_Exists_Forall in Hno; [|intros p; apply _].
    destruct (decide (Exists (fun p => is_waiting p = true) (tasks s))) as [Hw|Hnw].
    + exfalso. apply Exists_exists in Hw as (p & Hp & Hpw).
      destruct p; try discriminate.
      apply list_elem_of_lookup in Hp as [i Hi].
      apply (inv_waiting _ _ _ _ _ Hinv) in Hi.
      assert (Hz : sem_value s = 0).
      { apply (inv_locked _ _ _ _ _ Hinv). intros E. rewrite E in Hi. now apply elem_of_nil in Hi. }
      pose proof (inv_permits _ _ _ _ _ Hinv) as Hper.
      rewrite count_none in Hper; [lia|].
      eapply Forall_impl; [exact Hno|]. intros p Hp. simpl in Hp. now destruct p.
    + apply not_Exists_Forall in Hnw; [|intros p; apply _].
      exists GatherReturn.
      replace (forallb is_done (tasks s)) with true; [eauto|].
      symmetry. apply forallb_is_done.
      apply Forall_forall. intros p Hp.
      rewrite Forall_forall in Hno, Hnw.
      specialize (Hno p Hp). specialize (Hnw p Hp). simpl in *.
      destruct p; simpl in *; congruence.
Qed.

(** Whatever has happened, the run can be brought to its end. *)
Lemma completes n s :
  (1 <= max_workers)%Z -> measure s <= n -> pool_inv 0 s ->
  exists evs s', exec urls renderer s evs = Some s' /\ outcome s' <> Gathering.
Proof.
  intros Hk. revert s. induction n as [|n IH]; intros s Hn Hinv.
  - exists [], s. split; [reflexivity|]. intros Hout.
    unfold measure in Hn. rewrite Hout in Hn. lia.
  - destruct (outcome s) eqn:Hout.
    + destruct (progress s Hk Hinv Hout) as (ev & s1 & Hs).
      pose proof (step_measure _ _ _ Hinv Hs) as Hm.
      destruct (IH s1 ltac:(lia) (step_inv _ _ _ Hinv Hs)) as (evs & s' & Hex & Hres).
      exists (ev :: evs), s'. split; [|exact Hres]. simpl. now rewrite Hs.
    + exists [], s. split; [reflexivity|]. congruence.
    + exists [], s. split; [reflexivity|]. congruence.
Qed.

(** *** The claims about a run *)

Lemma exec_resolved s evs s' :
  outcome s <> Gathering -> exec urls renderer s evs = Some s' -> s' = s.
Proof.
  intros Hout. destruct evs as [|ev evs]; simpl; [now intros [= <-]|].
  unfold BaseScraper.step. destruct (outcome s); [contradiction|discriminate..].
Qed.

Lemma returned_nonneg evs s :
  run evs = Some s -> outcome s = Returned -> (0 <= max_workers)%Z.
Proof.
  intros Hrun Hout. destruct (Z.ltb_spec max_workers 0) as [Hneg|Hpos]; [|assumption].
  exfalso. unfold BaseScraper.run in Hrun.
  assert (Hi : outcome init <> Gathering).
  { unfold BaseScraper.init. apply Z.ltb_lt in Hneg. now rewrite Hneg. }
  apply (exec_resolved _ _ _ Hi) in Hrun. subst s.
  unfold BaseScraper.init in Hout. apply Z.ltb_lt in Hneg. now rewrite Hneg in Hout.
Qed.

Lemma all_done_data s :
  pool_inv 0 s -> Forall (fun p => p = Done) (tasks s) ->
  data s ≡ₚ flat_map (fun i => records (extraction i)) (seq 0 (length (tasks s))).
Proof.
  intros Hinv Hdone. rewrite (inv_data _ _ _ _ _ Hinv).
  now rewrite (gathered_all_done contribution (tasks s) 0 Hdone).
Qed.

(** C2: under a limit [max_workers = k], in every state of every run, the
    tasks whose renderer may be alive are among the tasks in a
    fetch-and-extract cycle, and these are at most [k]: each holds one of the
    [k] permits, the others are in the semaphore. *)
Theorem renderers_bounded_by_permits (evs : list event) (s : state) :
  (0 <= max_workers)%Z ->
  run evs = Some s ->
  (Z.of_nat (count renderer_active (tasks s)) <= Z.of_nat (count in_cycle (tasks s)))%Z /\
  (Z.of_nat (count in_cycle (tasks s)) <= max_workers)%Z /\
  (Z.of_nat (sem_value s) + Z.of_nat (count in_cycle (tasks s)) = max_workers)%Z /\
  length (tasks s) = length urls.
Proof.
  intros Hk Hrun. pose proof (run_inv evs s Hrun) as Hinv.
  pose proof (inv_permits _ _ _ _ _ Hinv) as Hper.
  pose proof (count_le renderer_active in_cycle (tasks s)
                ltac:(intros p; destruct p; simpl; congruence)) as Hle.
  repeat split; try lia. now apply (inv_length _ _ _ _ _ Hinv).
Qed.

(** C3: when [process_urls] returns, every task is done, one per URL, and
    [data] holds, up to order, the records [parse_page] gave for each
    rendered page, whatever the schedule was. *)
Theorem aggregate_is_union_of_pages (evs : list event) (s : state) :
  BaseScraper.parse_page [] = Ok [] ->
  run evs = Some s ->
  outcome s = Returned ->
  Forall (fun p => p = Done) (tasks s) /\
  length (tasks s) = length urls /\
  data s ≡ₚ
    flat_map (fun i => match render (renderer i) with
                       | Ok page => records (BaseScraper.parse_page page)
                       | Raise _ => []
                       end)
      (seq 0 (length urls)).
Proof.
  intros Hempty Hrun Hout. pose proof (run_inv evs s Hrun) as Hinv.
  pose proof (inv_outcome _ _ _ _ _ Hinv) as Hdone. rewrite Hout in Hdone.
  pose proof (inv_length _ _ _ _ _ Hinv (returned_nonneg evs s Hrun Hout)) as Hlen.
  split; [exact Hdone|]. split; [exact Hlen|].
  rewrite (all_done_data s Hinv Hdone), Hlen.
  erewrite flat_map_ext; [reflexivity|].
  intros i. unfold BaseScraper.extraction.
  destruct (render (renderer i)) as [[|c page]|e]; simpl; [now rewrite Hempty|reflexivity..].
Qed.

(** C1: with a limit of at least one, every run ends: a schedule has at
    most [4 n + 1] events and, as long as [process_urls] has neither returned
    nor raised, some event can happen, so the run can always be brought to
    its end. A URL whose rendering fails never
    makes its task fail: the task logs the error, gets [None], and ends with
    no record. Only an exception of [parse_page] on a rendered page makes
    [process_urls] raise, and when it returns, [data] is, up to order, what
    the rendered pages gave. *)
Theorem render_failure_is_isolated (evs : list event) (s : state) :
  (1 <= max_workers)%Z ->
  run evs = Some s ->
  length evs <= 4 * length urls + 1 /\
  (outcome s = Gathering -> exists ev s', step s ev = Some s') /\
  (exists evs' s', exec urls renderer s evs' = Some s' /\ outcome s' <> Gathering) /\
  (forall i e, render (renderer i) = Raise e ->
     (forall e', tasks s !! i <> Some (Failed e')) /\
     (forall html, tasks s !! i = Some (Fetched html) ->
        html = None /\ failure_line urls i e ∈ log s) /\
     (tasks s !! i = Some Done -> failure_line urls i e ∈ log s) /\
     contribution i Done = []) /\
  (forall e', outcome s = Raised e' ->
     exists i page,
       render (renderer i) = Ok page /\ BaseScraper.parse_page page = Raise e') /\
  (outcome s = Returned ->
     Forall (fun p => p = Done) (tasks s) /\
     data s ≡ₚ flat_map (fun i => records (extraction i))
                 (List.filter (rendered renderer) (seq 0 (length urls)))).
Proof.
  intros Hk Hrun. pose proof (run_inv evs s Hrun) as Hinv.
  split; [|split; [|split; [|split; [|split]]]].
  - pose proof (exec_measure _ _ _ init_inv Hrun). pose proof init_measure. lia.
  - now apply progress.
  - now apply (completes (measure s)).
  - intros i e He. split; [|split; [|split]].
    + intros e' Hi. apply (inv_phase _ _ _ _ _ Hinv) in Hi. simpl in Hi.
      unfold BaseScraper.extraction in Hi. now rewrite He in Hi.
    + intros html Hi. apply (inv_phase _ _ _ _ _ Hinv) in Hi as [-> Hl].
      split; [unfold fetch_page; now rewrite He|now apply Hl].
    + intros Hi. apply (inv_phase _ _ _ _ _ Hinv) in Hi as [_ Hl]. now apply Hl.
    + simpl. unfold BaseScraper.extraction. now rewrite He.
  - intros e' Hout. pose proof (inv_outcome _ _ _ _ _ Hinv) as Ho. rewrite Hout in Ho.
    destruct Ho as [Hneg|[i Hi]]; [lia|].
    apply (inv_phase _ _ _ _ _ Hinv) in Hi. simpl in Hi.
    unfold BaseScraper.extraction in Hi.
    destruct (render (renderer i)) as [[|c page]|e] eqn:Hr; simpl in Hi; try discriminate.
    eauto.
  - intros Hout. pose proof (inv_outcome _ _ _ _ _ Hinv) as Hdone. rewrite Hout in Hdone.
    split; [exact Hdone|].
    rewrite (all_done_data s Hinv Hdone), (inv_length _ _ _ _ _ Hinv ltac:(lia)).
    rewrite (flat_map_filter _ (rendered renderer)); [reflexivity|].
    intros i Hi. unfold BaseScraper.rendered in Hi. unfold BaseScraper.extraction.
    now destruct (render (renderer i)).
Qed.

End PoolProperties.

(** ** Sample runs *)

Example parse_page_sample :
  parse_page Samples.find_offers (u "fb") = Ok [Samples.full_record; Samples.bare_record].
Proof. vm_compute. reflexivity. Qed.

Example fetch_page_failure :
  fetch_page (u "https://it.pracuj.pl") Samples.times_out
  = (None, [(ERROR, u "Error fetching URL https://it.pracuj.pl: net::ERR_TIMED_OUT")]).
Proof. vm_compute. reflexivity. Qed.

Example parse_page_missing_href :
  parse_offer {| title_tag := None; company_tag := None; date_tag := None;
                 salary_tag := None; tech_tags := [];
                 link_tag := Some (Samples.text_tag (u "x")) |}
  = Raise (Exn KeyError (u "href")).
Proof. vm_compute. reflexivity. Qed.

Example schedule_data :
  data <$> BaseScraper.run (H := scraper Samples.find_offers) Samples.urls 2 Samples.renderer Samples.schedule
  = Some [Samples.full_record; Samples.full_record; Samples.bare_record].
Proof. vm_compute. reflexivity. Qed.

Example schedule'_data :
  data <$> BaseScraper.run (H := scraper Samples.find_offers) Samples.urls 2 Samples.renderer Samples.schedule'
  = Some [Samples.full_record; Samples.bare_record; Samples.full_record].
Proof. vm_compute. reflexivity. Qed.

Example started_state :
  (fun s => (tasks s, sem_value s, waiters s)) <$>
    BaseScraper.run (H := scraper Samples.find_offers) Samples.urls 2 Samples.renderer Samples.started
  = Some ([Fetching; Fetched None; Waiting], 0, [2]).
Proof. vm_compute. reflexivity. Qed.

(** ** The theorems on the sample inputs *)

Lemma technologies_field_witness :
  exists offer,
    Samples.find_offers (u "fb") !! 0 = Some offer /\
    (tech_tags offer = [] ->
       dict_get Samples.full_record (u "Technologie") = Some (PStr (u "Brak technologii"))) /\
    (tech_tags offer <> [] ->
       exists l,
         dict_get Samples.full_record (u "Technologie") = Some (PList l) /\
         length l = length (tech_tags offer) /\
         (forall j t, tech_tags offer !! j = Some t -> l !! j = Some (get_text_strip t)) /\
         (forall j t s, tech_tags offer !! j = Some t -> strings t = [s] ->
            l !! j = Some (strip s))).
Proof.
  apply (technologies_field Samples.find_offers (u "fb")
           [Samples.full_record; Samples.bare_record] 0 Samples.full_record).
  - vm_compute. reflexivity.
  - reflexivity.
Defined.

Lemma clean_salary_and_sentinel_witness :
  dict_get Samples.bare_record (u "Wynagrodzenie") = Some (PStr (u "Brak wynagrodzenia")).
Proof.
  apply (proj2 (proj2 (proj2 clean_salary_and_sentinel)) Samples.bare_offer).
  vm_compute. reflexivity.
Defined.

Lemma renderers_bounded_by_permits_witness :
  exists s,
    BaseScraper.run (H := scraper Samples.find_offers)
      Samples.urls 2 Samples.renderer Samples.started = Some s /\
    (Z.of_nat (count renderer_active (tasks s)) <= Z.of_nat (count in_cycle (tasks s)))%Z /\
    (Z.of_nat (count in_cycle (tasks s)) <= 2)%Z /\
    (Z.of_nat (sem_value s) + Z.of_nat (count in_cycle (tasks s)) = 2)%Z /\
    length (tasks s) = length Samples.urls.
Proof.
  eexists. split; [vm_compute; reflexivity|].
  apply (renderers_bounded_by_permits (H := scraper Samples.find_offers)
           Samples.urls 2 Samples.renderer Samples.started).
  - lia.
  - vm_compute. reflexivity.
Defined.

Lemma aggregate_is_union_of_pages_witness :
  exists s s',
    BaseScraper.run (H := scraper Samples.find_offers)
      Samples.urls 2 Samples.renderer Samples.schedule = Some s /\
    BaseScraper.run (H := scraper Samples.find_offers)
      Samples.urls 2 Samples.renderer Samples.schedule' = Some s' /\
    data s <> data s' /\
    data s ≡ₚ data s'.
Proof.
  eexists. eexists.
  split; [vm_compute; reflexivity|]. split; [vm_compute; reflexivity|].
  split; [vm_compute; discriminate|].
  etransitivity.
  - refine (proj2 (proj2 (aggregate_is_union_of_pages (H := scraper Samples.find_offers)
                            Samples.urls 2 Samples.renderer Samples.schedule _ _ _ _)));
      vm_compute; reflexivity.
  - symmetry.
    refine (proj2 (proj2 (aggregate_is_union_of_pages (H := scraper Samples.find_offers)
                            Samples.urls 2 Samples.renderer Samples.schedule' _ _ _ _)));
      vm_compute; reflexivity.
Defined.

Lemma render_failure_is_isolated_witness :
  exists s,
    BaseScraper.run (H := scraper Samples.find_offers)
      Samples.urls 2 Samples.renderer Samples.schedule = Some s /\
    outcome s = Returned /\
    failure_line Samples.urls 1 Samples.timed_out ∈ log s /\
    data s ≡ₚ flat_map (fun i => records (extraction (H := scraper Samples.find_offers)
                                           Samples.renderer i)) [0; 2].
Proof.
  eexists. split; [vm_compute; reflexivity|].
  split; [reflexivity|].
  pose proof (render_failure_is_isolated (H := scraper Samples.find_offers)
                Samples.urls 2 Samples.renderer Samples.schedule _
                ltac:(lia) ltac:(vm_compute; reflexivity))
    as (_ & _ & _ & Hfail & _ & Hret).
  split.
  - exact (proj1 (proj2 (proj2 (Hfail 1 _ eq_refl))) eq_refl).
  - exact (proj2 (Hret eq_refl)).
Defined.

(* ===================================================================== *)
(** * Further properties of the code                                      *)
(* ===================================================================== *)

(** ** [fetch_page] *)



(** X2: The error [fetch_page] logs is that of the first operation that raised,
    in the order of the [try] block; what later operations would have done
    does not matter. *)
Theorem fetch_page_first_failure (url : pystr) (ses : session) (e : exn) :
  let failed := (None, [(ERROR, u "Error fetching URL " ++ url ++ u ": " ++ exn_msg e)]) in
  (get_driver ses = Raise e -> fetch_page url ses = failed) /\
  (get_driver ses = Ok tt -> driver_get ses = Raise e -> fetch_page url ses = failed) /\
  (get_driver ses = Ok tt -> driver_get ses = Ok tt -> find_element_body ses = Raise e ->
   fetch_page url ses = failed) /\
  (forall k, (k < 3)%nat ->
     get_driver ses = Ok tt -> driver_get ses = Ok tt -> find_element_body ses = Ok tt ->
     (forall j, (j < k)%nat -> send_keys ses j = Ok tt) -> send_keys ses k = Raise e ->
     fetch_page url ses = failed) /\
  (get_driver ses = Ok tt -> driver_get ses = Ok tt -> find_element_body ses = Ok tt ->
   (forall j, (j < 3)%nat -> send_keys ses j = Ok tt) -> page_source ses = Raise e ->
   fetch_page url ses = failed).
Proof.
  intros failed. unfold failed, fetch_page, render, scroll. bind_step.
  split; [|split; [|split; [|split]]].
  - now intros ->.
  - now intros -> ->.
  - now intros -> -> ->.
  - intros k Hk -> -> -> Hj Hr.
    destruct k as [|[|[|k]]]; [| | |lia].
    + now rewrite Hr.
    + now rewrite (Hj 0%nat ltac:(lia)), Hr.
    + now rewrite (Hj 0%nat ltac:(lia)), (Hj 1%nat ltac:(lia)), Hr.
  - intros -> -> -> Hj Hr.
    now rewrite (Hj 0%nat ltac:(lia)), (Hj 1%nat ltac:(lia)), (Hj 2%nat ltac:(lia)), Hr.
Qed.

Lemma fetch_page_first_failure_witness :
  fetch_page (u "https://it.pracuj.pl") Samples.times_out =
  (None, [(ERROR, u "Error fetching URL " ++ u "https://it.pracuj.pl" ++ u ": "
                  ++ exn_msg Samples.timed_out)]).
Proof.
  exact (proj1 (proj2 (fetch_page_first_failure (u "https://it.pracuj.pl")
                         Samples.times_out Samples.timed_out)) eq_refl eq_refl).
Defined.

(** ** [parse_page] *)

Lemma convert_to_iso_ok date_str : exists iso, convert_to_iso date_str = Ok iso.
Proof. unfold convert_to_iso, try_except. destruct (convert_to_iso_body date_str); eauto. Qed.

Lemma parse_offer_keys offer job_data :
  parse_offer offer = Ok job_data -> keys job_data = job_fields.
Proof. intros Hp. now destruct (parse_offer_inv _ _ Hp) as (v1 & v2 & v3 & v6 & ->). Qed.

Lemma parse_offer_raises offer :
  (forall e, parse_offer offer = Raise e -> e = Exn KeyError (u "href") /\ lacks_href offer) /\
  (lacks_href offer -> parse_offer offer = Raise (Exn KeyError (u "href"))).
Proof.
  unfold parse_offer, lacks_href.
  destruct (convert_to_iso_ok (match date_tag offer with
                               | Some t => get_text t | None => [] end)) as [iso ->].
  bind_step. destruct (link_tag offer) as [t|].
  - unfold getitem. destruct (attrs t !! u "href") as [v|] eqn:Hv; bind_step.
    + split; [discriminate|]. intros (t' & [= <-] & Hn). congruence.
    + split; [|reflexivity]. intros e [= <-]. eauto.
  - split; [discriminate|]. intros (t' & Ht & _). discriminate.
Qed.

(** X3: When [parse_page] returns, it returns one dictionary per listing block,
    in the order of the blocks, each with the same six keys in the same
    order. *)
Theorem parse_page_one_record_per_block (find_offers : pystr -> list Offer)
    (html : pystr) (page_data : list pydict) :
  parse_page find_offers html = Ok page_data ->
  length page_data = length (find_offers html) /\
  Forall (fun job_data => keys job_data = job_fields) page_data /\
  (forall i offer, find_offers html !! i = Some offer ->
     exists job_data, page_data !! i = Some job_data /\ parse_offer offer = Ok job_data).
Proof.
  unfold parse_page. generalize (find_offers html) as offers.
  intros offers. revert page_data.
  induction offers as [|o offers IH]; intros page_data; simpl.
  - intros [= <-]. repeat split; [constructor|]. intros i offer Hi. discriminate.
  - destruct (parse_offer o) as [jd|e] eqn:Ho; [|discriminate]. bind_step.
    destruct (parse_offers offers) as [pd|e]; [|discriminate]. bind_step.
    intros [= <-]. destruct (IH pd eq_refl) as (Hlen & Hkeys & Hall).
    split; [simpl; now rewrite Hlen|]. split.
    + constructor; [now apply parse_offer_keys in Ho|exact Hkeys].
    + intros [|i] offer; simpl; [intros [= <-]; eauto|apply Hall].
Qed.

Lemma parse_page_one_record_per_block_witness :
  length [Samples.full_record; Samples.bare_record] = length (Samples.find_offers (u "fb")) /\
  Forall (fun job_data => keys job_data = job_fields)
    [Samples.full_record; Samples.bare_record].
Proof.
  pose proof (parse_page_one_record_per_block Samples.find_offers (u "fb")
                [Samples.full_record; Samples.bare_record]
                ltac:(vm_compute; reflexivity)) as (Hlen & Hkeys & _).
  split; assumption.
Defined.

(** X4: [parse_page] raises exactly when some listing block has a link element
    without an [href] attribute; the exception is the [KeyError] of that
    lookup, and no record of the page is returned. *)
Theorem parse_page_raises_on_missing_href (find_offers : pystr -> list Offer) (html : pystr) :
  ((exists e, parse_page find_offers html = Raise e) <->
   Exists lacks_href (find_offers html)) /\
  (forall e, parse_page find_offers html = Raise e -> e = Exn KeyError (u "href")).
Proof.
  unfold parse_page. generalize (find_offers html) as offers. intros offers.
  induction offers as [|o offers [IHiff IHe]]; simpl.
  - split; [|discriminate]. split; [intros [e He]; discriminate|].
    intros Hex. now apply Exists_nil in Hex.
  - destruct (parse_offer_raises o) as [Hr1 Hr2].
    destruct (parse_offer o) as [jd|e0] eqn:Ho; bind_step.
    + destruct (parse_offers offers) as [pd|e1] eqn:Hrest; bind_step.
      * split; [|discriminate]. split; [intros [e He]; discriminate|].
        intros Hex. apply Exists_cons in Hex as [Hl|Hex].
        -- specialize (Hr2 Hl). discriminate.
        -- apply IHiff in Hex as [e He]. discriminate.
      * split.
        -- split; [|eauto]. intros _. apply Exists_cons_tl. apply IHiff. eauto.
        -- intros e [= <-]. now apply IHe.
    + destruct (Hr1 e0 eq_refl) as [-> Hl]. split.
      * split; [|eauto]. intros _. now apply Exists_cons_hd.
      * now intros e [= <-].
Qed.

(** ** [save_to_csv] *)





















Lemma save_to_csv_writable dsk filename w first rest :
  dsk filename = Writable ->
  Forall (fun d => keys d ⊆ keys first) rest ->
  files (save_to_csv dsk (first :: rest) filename w).2 =
    <[filename := List.map PStr (keys first)
                  :: List.map (row_of (keys first)) (first :: rest)]> (files w).
Proof.
  intros Hd Hk. unfold save_to_csv. io_step.
  unfold open_w at 1. rewrite Hd.
  unfold writeheader, write_row at 1. cbn [files logged]. rewrite Hd.
  rewrite lookup_insert_eq. cbn [default from_option id app].
  rewrite (writerows_writable dsk filename (keys first) (first :: rest) _
             [List.map PStr (keys first)]); cbn [files logged].
  - simpl. rewrite !insert_insert_eq. reflexivity.
  - assumption.
  - constructor; [intros k Hin; exact Hin|assumption].
  - apply lookup_insert_eq.
Qed.

(** X11: The file is opened for writing, not for appending: what [save_to_csv]
    leaves at the destination does not depend on what was there, and saving
    the same records again leaves the file store as the first call left
    it. *)
Theorem save_to_csv_overwrites (dsk : pystr -> disk) (filename : pystr)
    (first : pydict) (rest : list pydict) (w w' : world) :
  dsk filename = Writable ->
  Forall (fun d => keys d ⊆ keys first) rest ->
  let save := save_to_csv dsk (first :: rest) filename in
  files (save w).2 !! filename = files (save w').2 !! filename /\
  files (save (save w).2).2 = files (save w).2.
Proof.
  intros Hd Hk save. unfold save.
  rewrite !(save_to_csv_writable dsk filename _ first rest Hd Hk).
  split; [now rewrite !lookup_insert_eq|apply insert_insert_eq].
Qed.

Lemma save_to_csv_overwrites_witness :
  let save := save_to_csv (fun _ => Writable) [Samples.full_record] Samples.job_listings in
  files (save {| files := {[ Samples.job_listings := [[PStr (u "old")]] ]}; logged := [] |}).2
    !! Samples.job_listings
  = files (save Samples.empty_world).2 !! Samples.job_listings.
Proof.
  exact (proj1 (save_to_csv_overwrites (fun _ => Writable) Samples.job_listings
                  Samples.full_record [] _ Samples.empty_world eq_refl
                  ltac:(constructor))).
Defined.

(** ** [convert_to_iso] and [clean_salary] on any text *)

Local Open Scope N_scope.

Lemma head_rev {A} (l : list A) : head (rev l) = last l.
Proof.
  induction l as [|x l IH] using rev_ind; [reflexivity|].
  now rewrite rev_app_distr, last_snoc.
Qed.

Lemma last_rev {A} (l : list A) : last (rev l) = head l.
Proof. destruct l as [|x l]; [reflexivity|]. simpl. now rewrite last_snoc. Qed.

Lemma lstrip_last s : lstrip s <> [] -> last (lstrip s) = last s.
Proof.
  induction s as [|c s IH]; simpl; [easy|].
  destruct (isspace c); [|reflexivity].
  intros Hn. rewrite (IH Hn). destruct s; [now simpl in Hn|reflexivity].
Qed.

Lemma lstrip_head_not_space s c : head (lstrip s) = Some c -> isspace c = false.
Proof.
  destruct (lstrip s) as [|a r] eqn:E; [discriminate|].
  intros [= <-]. exact (lstrip_head s a r E).
Qed.

(** A stripped string neither begins nor ends with whitespace. *)
Lemma strip_trimmed s c :
  head (strip s) = Some c \/ last (strip s) = Some c -> isspace c = false.
Proof.
  unfold strip, rstrip. rewrite head_rev, last_rev. intros [Hl|Hh].
  - destruct (lstrip (rev (lstrip s))) as [|a r] eqn:E; [discriminate|].
    rewrite <- E, lstrip_last, last_rev in Hl by (rewrite E; discriminate).
    now apply lstrip_head_not_space in Hl.
  - now apply lstrip_head_not_space in Hh.
Qed.

Lemma replace_go_no_occurrence old new s :
  contains old s = false -> replace_go old new 0 s = s.
Proof.
  induction s as [|c s IH]; intros Hno; [reflexivity|].
  cbn [replace_go contains] in *. apply orb_false_iff in Hno as [-> Hno].
  f_equal. now apply IH.
Qed.

(** X7: [clean_salary] gives a text without whitespace at either end, and a
    text that does not hold the suffix [" zł / mies. (zal. od umowy)"] is
    only stripped. *)
Theorem clean_salary_trimmed (salary : pystr) :
  (forall c, head (clean_salary salary) = Some c \/ last (clean_salary salary) = Some c ->
     isspace c = false) /\
  (contains salary_suffix salary = false -> clean_salary salary = strip salary).
Proof.
  split; [intros c; apply strip_trimmed|].
  intros Hno. unfold clean_salary.
  change (replace salary_suffix [] salary)
    with (replace_go salary_suffix [] 0 salary).
  now rewrite replace_go_no_occurrence.
Qed.

Lemma clean_salary_trimmed_witness :
  clean_salary (u " 45 zł / godz. ") = strip (u " 45 zł / godz. ").
Proof.
  apply (proj2 (clean_salary_trimmed (u " 45 zł / godz. "))).
  vm_compute. reflexivity.
Defined.

Lemma startswith_app p s : startswith p (p ++ s) = true.
Proof. induction p as [|a p IH]; simpl; [reflexivity|]. now rewrite N.eqb_refl. Qed.

Lemma startswith_length p s : startswith p s = true -> (length p <= length s)%nat.
Proof.
  revert s. induction p as [|a p IH]; intros [|b s]; simpl; try lia; try discriminate.
  intros Hs. apply andb_true_iff in Hs as [_ Hs]. apply IH in Hs. lia.
Qed.

Lemma replace_go_skip old new pre s :
  replace_go old new (length pre) (pre ++ s) = replace_go old new 0 s.
Proof. induction pre as [|c pre IH]; [reflexivity|exact IH]. Qed.

(** An occurrence at the very beginning is replaced, and the scan goes on
    after it. *)
Lemma replace_go_prefix o old new s :
  replace_go (o :: old) new 0 ((o :: old) ++ s) = new ++ replace_go (o :: old) new 0 s.
Proof.
  change ((o :: old) ++ s) with (o :: (old ++ s)). cbn [replace_go].
  change (o :: (old ++ s)) with ((o :: old) ++ s). rewrite startswith_app.
  f_equal. replace (length (o :: old) - 1)%nat with (length old) by (simpl; lia).
  apply replace_go_skip.
Qed.

Lemma startswith_app_blank old x post :
  no_space old -> all_space post -> old <> [] ->
  startswith old (x ++ post) = startswith old x.
Proof.
  intros Hold Hpost. revert x. induction Hold as [|a old Ha Hold IH]; intros x Hne; [easy|].
  destruct x as [|c x]; simpl.
  - destruct Hpost as [|b post Hb _]; [reflexivity|]. simpl.
    destruct (N.eqb_spec a b) as [->|_]; [congruence|reflexivity].
  - destruct old as [|a' old'].
    + now destruct (a =? c).
    + now rewrite IH.
Qed.

Lemma replace_go_leading_blank o old new pre s :
  isspace o = false -> all_space pre ->
  replace_go (o :: old) new 0 (pre ++ s) = pre ++ replace_go (o :: old) new 0 s.
Proof.
  intros Ho. induction 1 as [|c pre Hc _ IH]; [reflexivity|].
  change ((c :: pre) ++ s) with (c :: (pre ++ s)). cbn [replace_go startswith].
  destruct (N.eqb_spec o c) as [->|_]; [congruence|]. cbn [andb]. now rewrite IH.
Qed.

Lemma replace_go_trailing_blank o old new k x post :
  no_space (o :: old) -> all_space post -> (k <= length x)%nat ->
  replace_go (o :: old) new k (x ++ post) = replace_go (o :: old) new k x ++ post.
Proof.
  intros Hold Hpost. revert k. induction x as [|c x IH]; intros k Hk.
  - assert (k = 0)%nat as -> by (simpl in Hk; lia). simpl.
    apply all_space_replace_go; [now inversion Hold|assumption].
  - change ((c :: x) ++ post) with (c :: (x ++ post)). destruct k as [|k].
    + cbn [replace_go]. change (c :: (x ++ post)) with ((c :: x) ++ post).
      rewrite (startswith_app_blank (o :: old) (c :: x) post Hold Hpost) by discriminate.
      destruct (startswith (o :: old) (c :: x)) eqn:Hs.
      * apply startswith_length in Hs. simpl in Hs.
        rewrite IH by (simpl; lia). now rewrite app_assoc.
      * rewrite IH by lia. reflexivity.
    + cbn [replace_go]. apply IH. simpl in Hk. lia.
Qed.

Lemma lstrip_leading_blank pre s : all_space pre -> lstrip (pre ++ s) = lstrip s.
Proof. induction 1 as [|c pre Hc _ IH]; simpl; [reflexivity|]. now rewrite Hc. Qed.

Lemma rstrip_trailing_blank s post : all_space post -> rstrip (s ++ post) = rstrip s.
Proof.
  intros Hp. unfold rstrip. rewrite rev_app_distr, lstrip_leading_blank; [reflexivity|].
  now apply all_space_rev.
Qed.

Lemma strip_surrounding_blank pre s post :
  all_space pre -> all_space post -> strip (pre ++ s ++ post) = strip s.
Proof.
  intros Hpre Hpost. unfold strip. rewrite lstrip_leading_blank by assumption.
  induction s as [|c s IH]; simpl.
  - now rewrite (all_space_lstrip post Hpost).
  - destruct (isspace c); [exact IH|].
    change (c :: s ++ post) with ((c :: s) ++ post). now apply rstrip_trailing_blank.
Qed.

Lemma label_no_space : no_space (u "Opublikowana:").
Proof. repeat constructor. Qed.

Lemma date_tokens_label s : date_tokens (u "Opublikowana:" ++ s) = date_tokens s.
Proof.
  unfold date_tokens.
  change (replace (u "Opublikowana:") [] (u "Opublikowana:" ++ s))
    with (replace_go (79 :: u "publikowana:") [] 0 ((79 :: u "publikowana:") ++ s)).
  now rewrite replace_go_prefix.
Qed.

(** X5: The label ["Opublikowana:"] in front of a text never changes what
    [convert_to_iso] returns for it. *)
Theorem convert_to_iso_label (date_str : pystr) :
  convert_to_iso (u "Opublikowana:" ++ date_str) = convert_to_iso date_str.
Proof.
  assert (Hl : strip (u "Opublikowana:" ++ date_str) <> []).
  { intros Hs. apply strip_nil_all_space in Hs.
    change (u "Opublikowana:" ++ date_str) with (79 :: (u "publikowana:" ++ date_str)) in Hs.
    inversion Hs as [|? ? Hc _]. discriminate. }
  rewrite (convert_to_iso_tokens _ Hl), date_tokens_label.
  destruct (strip date_str) eqn:Hs.
  - rewrite (convert_to_iso_blank _ Hs), (blank_has_no_tokens _ Hs). reflexivity.
  - now rewrite convert_to_iso_tokens by congruence.
Qed.

(** X6: Whitespace around the text does not matter to [convert_to_iso]. *)
Theorem convert_to_iso_surrounding_whitespace (pre date_str post : pystr) :
  all_space pre -> all_space post ->
  convert_to_iso (pre ++ date_str ++ post) = convert_to_iso date_str.
Proof.
  intros Hpre Hpost.
  assert (Ht : date_tokens (pre ++ date_str ++ post) = date_tokens date_str).
  { unfold date_tokens.
    change (replace (u "Opublikowana:") [] (pre ++ date_str ++ post))
      with (replace_go (79 :: u "publikowana:") [] 0 (pre ++ date_str ++ post)).
    change (replace (u "Opublikowana:") [] date_str)
      with (replace_go (79 :: u "publikowana:") [] 0 date_str).
    rewrite replace_go_leading_blank by (reflexivity || assumption).
    rewrite replace_go_trailing_blank by (exact label_no_space || assumption || lia).
    now rewrite strip_surrounding_blank. }
  pose proof (strip_surrounding_blank pre date_str post Hpre Hpost) as Hs.
  destruct (strip date_str) eqn:Hd.
  - now rewrite (convert_to_iso_blank _ Hs), (convert_to_iso_blank _ Hd).
  - rewrite !convert_to_iso_tokens by congruence. now rewrite Ht.
Qed.

Lemma convert_to_iso_surrounding_whitespace_witness :
  convert_to_iso (u "  " ++ u "12 stycznia 2024" ++ [10; 9])
  = convert_to_iso (u "12 stycznia 2024").
Proof.
  apply convert_to_iso_surrounding_whitespace; repeat constructor.
Defined.

(** ** More on the task pool *)

Local Open Scope nat_scope.

Section PoolRuns.

Context `{Scraper}.
Variable urls : list pystr.
Variable max_workers : Z.
Variable renderer : nat -> session.

Local Abbreviation step := (step urls renderer).
Local Abbreviation exec := (exec urls renderer).
Local Abbreviation init := (init urls max_workers).
Local Abbreviation run := (run urls max_workers renderer).
Local Abbreviation pool_inv := (pool_inv urls max_workers renderer).
Local Abbreviation extraction := (extraction renderer).
Local Abbreviation event_lines := (event_lines urls renderer).
Local Abbreviation stage_of := (stage_of urls max_workers renderer).

Lemma release_data_log s : data (release s) = data s /\ log (release s) = log s.
Proof. unfold release. now destruct (waiters s). Qed.

(** What one event adds to [data] and to the log. *)
Lemma step_data_log s ev s' :
  pool_inv 0 s -> step s ev = Some s' ->
  data s' = data s ++ match ev with Resume i => records (extraction i) | _ => [] end /\
  log s' = log s ++ event_lines ev.
Proof.
  intros Hinv. unfold BaseScraper.step.
  destruct (outcome s) eqn:Hout; [|discriminate..].
  destruct ev as [i|i|i| |i].
  - destruct (tasks s !! i) as [[]|]; try discriminate.
    intros [= <-]. unfold acquire.
    destruct (sem_value s); [|destruct (waiters s)]; simpl; now rewrite !app_nil_r.
  - destruct (tasks s !! i) as [[]|]; try discriminate. simpl.
    destruct (fetch_page (url_of urls i) (renderer i)) as [html lines].
    intros [= <-]. simpl. now rewrite app_nil_r.
  - destruct (tasks s !! i) as [[| | |html| |]|] eqn:Hi; try discriminate.
    intros [= <-].
    destruct (inv_phase _ _ _ _ _ Hinv i _ Hi) as [Hhtml _].
    pose proof (extraction_of_fetched urls renderer i html Hhtml) as Hex.
    unfold resume. rewrite Hex. unfold BaseScraper.event_lines.
    unfold fetch_page in Hhtml.
    destruct (render (renderer i)) as [[|c page]|e]; subst html; simpl.
    + destruct (release_data_log (set_phase i Done s)) as [-> ->].
      simpl. now rewrite !app_nil_r.
    + destruct (BaseScraper.parse_page (c :: page)) as [page_data|e];
        match goal with |- context [release ?s1] =>
          destruct (release_data_log s1) as [-> ->] end;
        simpl; now rewrite ?app_nil_r.
    + destruct (release_data_log (set_phase i Done s)) as [-> ->].
      simpl. now rewrite !app_nil_r.
  - destruct (forallb is_done (tasks s)); [|discriminate].
    intros [= <-]. simpl. now rewrite !app_nil_r.
  - destruct (tasks s !! i) as [[]|]; try discriminate.
    intros [= <-]. simpl. now rewrite !app_nil_r.
Qed.

Lemma exec_data_log s evs s' :
  pool_inv 0 s -> exec s evs = Some s' ->
  data s' = data s ++ flat_map (fun i => records (extraction i)) (resumed evs) /\
  log s' = log s ++ flat_map event_lines evs.
Proof.
  revert s. induction evs as [|ev evs IH]; intros s Hinv; simpl.
  - intros [= <-]. now rewrite !app_nil_r.
  - destruct (step s ev) as [s1|] eqn:Hs; [|discriminate]. intros Hex.
    destruct (step_data_log _ _ _ Hinv Hs) as [Hd Hl].
    destruct (IH s1 (step_inv _ _ _ _ _ _ Hinv Hs) Hex) as [-> ->].
    rewrite Hd, Hl, <- !app_assoc. split; [|reflexivity].
    f_equal. unfold resumed. destruct ev; reflexivity.
Qed.

Lemma init_data_log : data init = [] /\ log init = [].
Proof. unfold BaseScraper.init. now destruct (max_workers <? 0)%Z. Qed.

(** X12: At every point of a run, [data] is the records of the pages of the
    tasks resumed so far, page after page in the order the tasks were
    resumed, each page's records together and in the order [parse_page] gave
    them. *)
Theorem data_in_completion_order (evs : list event) (s : state) :
  run evs = Some s ->
  data s = flat_map (fun i => records (extraction i)) (resumed evs).
Proof.
  intros Hrun. destruct (exec_data_log _ _ _ (init_inv _ _ _) Hrun) as [Hd _].
  now rewrite (proj1 init_data_log) in Hd.
Qed.

(** The log of a run is made of the lines of its events, in their order. *)
Lemma log_follows_schedule (evs : list event) (s : state) :
  run evs = Some s ->
  log s = flat_map event_lines evs.
Proof.
  intros Hrun. destruct (exec_data_log _ _ _ (init_inv _ _ _) Hrun) as [_ Hl].
  now rewrite (proj2 init_data_log) in Hl.
Qed.

(** *** Each task goes through its cycle once *)

Lemma finished_of_rank p : rank p = 0 -> finished p = true.
Proof. now destruct p. Qed.

(** How one event moves the phase of task [j]. *)
Lemma step_phases s ev s' j :
  pool_inv 0 s -> step s ev = Some s' ->
  match ev with
  | Start i =>
    if decide (j = i)
    then tasks s !! j = Some Pending /\
         (tasks s' !! j = Some Fetching \/ tasks s' !! j = Some Waiting)
    else tasks s' !! j = tasks s !! j
  | WorkerDone i =>
    if decide (j = i)
    then tasks s !! j = Some Fetching /\ exists html, tasks s' !! j = Some (Fetched html)
    else tasks s' !! j = tasks s !! j
  | Resume i =>
    if decide (j = i)
    then (exists html, tasks s !! j = Some (Fetched html)) /\
         (exists p, tasks s' !! j = Some p /\ finished p = true)
    else tasks s' !! j = tasks s !! j \/
         (tasks s !! j = Some Waiting /\ tasks s' !! j = Some Fetching)
  | _ => tasks s' !! j = tasks s !! j
  end.
Proof.
  intros Hinv. unfold BaseScraper.step.
  destruct (outcome s) eqn:Hout; [|discriminate..].
  destruct ev as [i|i|i| |i].
  - destruct (tasks s !! i) as [[]|] eqn:Hi; try discriminate.
    intros [= <-]. pose proof (lookup_lt_Some _ _ _ Hi) as Hlt.
    unfold acquire. destruct (decide (j = i)) as [->|Hne].
    + split; [exact Hi|].
      destruct (sem_value s); [|destruct (waiters s)]; simpl;
        rewrite list_lookup_insert_eq by assumption; auto.
    + destruct (sem_value s); [|destruct (waiters s)]; simpl;
        now rewrite list_lookup_insert_ne by congruence.
  - destruct (tasks s !! i) as [[]|] eqn:Hi; try discriminate.
    destruct (fetch_page (url_of urls i) (renderer i)) as [html lines].
    intros [= <-]. pose proof (lookup_lt_Some _ _ _ Hi) as Hlt. simpl.
    destruct (decide (j = i)) as [->|Hne].
    + split; [exact Hi|]. rewrite list_lookup_insert_eq by assumption. eauto.
    + now rewrite list_lookup_insert_ne by congruence.
  - destruct (tasks s !! i) as [[| | |html| |]|] eqn:Hi; try discriminate.
    intros [= <-]. pose proof (lookup_lt_Some _ _ _ Hi) as Hlt.
    destruct (resume_mid _ _ _ i html s Hinv Hout Hi) as (s1 & p' & -> & Hmid & _ & Ht & Hr).
    apply finished_of_rank in Hr.
    assert (Hi1 : tasks s1 !! i = Some p').
    { rewrite Ht. now apply list_lookup_insert_eq. }
    unfold release. destruct (waiters s1) as [|w ws] eqn:Ew; simpl.
    + rewrite Ht. destruct (decide (j = i)) as [->|Hne].
      * split; [eauto|]. rewrite list_lookup_insert_eq by assumption. eauto.
      * left. now rewrite list_lookup_insert_ne by congruence.
    + assert (Hw : tasks s1 !! w = Some Waiting).
      { apply (inv_waiting _ _ _ _ _ Hmid). rewrite Ew. left. }
      assert (Hwi : w <> i).
      { intros ->. rewrite Hi1 in Hw. injection Hw as ->. discriminate. }
      destruct (decide (j = i)) as [->|Hne].
      * split; [eauto|]. rewrite list_lookup_insert_ne by assumption. eauto.
      * destruct (decide (j = w)) as [->|Hnw].
        -- right. rewrite list_lookup_insert_eq by (eapply lookup_lt_Some; eassumption).
           split; [|reflexivity]. rewrite Ht in Hw.
           now rewrite list_lookup_insert_ne in Hw by congruence.
        -- left. rewrite list_lookup_insert_ne by congruence.
           rewrite Ht. now rewrite list_lookup_insert_ne by congruence.
  - destruct (forallb is_done (tasks s)); [|discriminate]. now intros [= <-].
  - destruct (tasks s !! i) as [[]|]; try discriminate. now intros [= <-].
Qed.

Lemma finished_stage :
  stage_of finished (fun ev => match ev with Resume i => Some i | _ => None end).
Proof.
  intros s ev s' j Hinv Hs. pose proof (step_phases s ev s' j Hinv Hs) as Hp.
  unfold task_is. destruct ev as [i|i|i| |i]; try destruct (decide (j = i)) as [->|Hne].
  all: try (rewrite bool_decide_eq_false_2 by congruence).
  all: try (rewrite bool_decide_eq_true_2 by reflexivity).
  all: try (rewrite Hp, orb_false_r; split; [reflexivity|congruence]).
  - destruct Hp as [-> [-> | ->]]; split; (reflexivity || congruence).
  - destruct Hp as [-> [html ->]]; split; (reflexivity || congruence).
  - destruct Hp as [[html ->] (p & -> & ->)]. split; reflexivity.
  - destruct Hp as [-> | [-> ->]]; split; (reflexivity || congruence || now rewrite orb_false_r).
Qed.

Lemma fetch_over_stage :
  stage_of fetch_over (fun ev => match ev with WorkerDone i => Some i | _ => None end).
Proof.
  intros s ev s' j Hinv Hs. pose proof (step_phases s ev s' j Hinv Hs) as Hp.
  unfold task_is. destruct ev as [i|i|i| |i]; try destruct (decide (j = i)) as [->|Hne].
  all: try (rewrite bool_decide_eq_false_2 by congruence).
  all: try (rewrite bool_decide_eq_true_2 by reflexivity).
  all: try (rewrite Hp, orb_false_r; split; [reflexivity|congruence]).
  - destruct Hp as [-> [-> | ->]]; split; (reflexivity || congruence).
  - destruct Hp as [-> [html ->]]; split; reflexivity.
  - destruct Hp as [[html ->] (p & -> & Hf)]. split; [|congruence].
    destruct p; try discriminate; reflexivity.
  - destruct Hp as [-> | [-> ->]]; split; (reflexivity || congruence || now rewrite orb_false_r).
Qed.

Lemma exec_stage f mark s evs s' :
  stage_of f mark -> pool_inv 0 s -> exec s evs = Some s' ->
  NoDup (omap mark evs) /\
  (forall j, task_is f (tasks s') j = task_is f (tasks s) j || bool_decide (j ∈ omap mark evs)) /\
  (forall j, j ∈ omap mark evs -> task_is f (tasks s) j = false).
Proof.
  intros Hst. revert s. induction evs as [|ev evs IH]; intros s Hinv; simpl.
  - intros [= <-]. split; [constructor|]. split.
    + intros j. now rewrite orb_false_r.
    + intros j Hj. now apply elem_of_nil in Hj.
  - destruct (step s ev) as [s1|] eqn:Hs; [|discriminate]. intros Hex.
    destruct (IH s1 (step_inv _ _ _ _ _ _ Hinv Hs) Hex) as (Hnd & Hall & Hnot).
    assert (Hback : forall j, task_is f (tasks s1) j = false -> task_is f (tasks s) j = false).
    { intros j Hj. destruct (Hst s ev s1 j Hinv Hs) as [Hor _].
      rewrite Hor in Hj. now apply orb_false_iff in Hj as [Hj _]. }
    destruct (mark ev) as [i|] eqn:Hm.
    + assert (Hi1 : task_is f (tasks s1) i = true).
      { destruct (Hst s ev s1 i Hinv Hs) as [-> _].
        rewrite bool_decide_eq_true_2 by assumption. apply orb_true_r. }
      split; [|split].
      * constructor; [|exact Hnd]. intros Hin. apply Hnot in Hin. congruence.
      * intros j. rewrite Hall. destruct (Hst s ev s1 j Hinv Hs) as [-> _]. rewrite Hm.
        rewrite <- orb_assoc. f_equal.
        destruct (decide (i = j)) as [->|Hne].
        -- rewrite (bool_decide_eq_true_2 (Some j = Some j)) by reflexivity.
           symmetry. apply bool_decide_eq_true_2. left.
        -- rewrite (bool_decide_eq_false_2 (Some i = Some j)) by congruence.
           cbn [orb]. apply bool_decide_ext. rewrite elem_of_cons. split; [tauto|].
           intros [->|Hj]; [contradiction|assumption].
      * intros j Hj. apply elem_of_cons in Hj as [->|Hj].
        -- destruct (Hst s ev s1 i Hinv Hs) as [_ Hf]. now apply Hf.
        -- apply Hback, Hnot, Hj.
    + split; [exact Hnd|]. split.
      * intros j. rewrite Hall. destruct (Hst s ev s1 j Hinv Hs) as [-> _]. rewrite Hm.
        rewrite (bool_decide_eq_false_2 (None = Some j)) by discriminate.
        now rewrite orb_false_r.
      * intros j Hj. apply Hback, Hnot, Hj.
Qed.

Lemma init_stage f j : f Pending = false -> task_is f (tasks init) j = false.
Proof.
  intros Hf. unfold task_is, BaseScraper.init. destruct (max_workers <? 0)%Z; simpl.
  - reflexivity.
  - destruct (List.map (fun _ => Pending) urls !! j) as [p|] eqn:Hj; [|reflexivity].
    apply lookup_all_pending in Hj. now subst.
Qed.

(** A schedule names each task at most once for a stage, the tasks it names
    are those that have reached the stage, and when [process_urls] returns
    it has named every task. *)
Lemma run_stage f mark evs s :
  stage_of f mark -> f Pending = false -> f Done = true ->
  run evs = Some s ->
  NoDup (omap mark evs) /\
  (forall j, j ∈ omap mark evs <-> task_is f (tasks s) j = true) /\
  (outcome s = Returned -> omap mark evs ≡ₚ seq 0 (length urls)).
Proof.
  intros Hst Hp Hd Hrun.
  destruct (exec_stage f mark _ _ _ Hst (init_inv _ _ _) Hrun) as (Hnd & Hall & _).
  assert (Hiff : forall j, j ∈ omap mark evs <-> task_is f (tasks s) j = true).
  { intros j. rewrite Hall, (init_stage f j Hp). simpl. now rewrite bool_decide_eq_true. }
  split; [exact Hnd|]. split; [exact Hiff|].
  intros Hout. pose proof (run_inv _ _ _ _ _ Hrun) as Hinv.
  pose proof (inv_outcome _ _ _ _ _ Hinv) as Hdone. rewrite Hout in Hdone.
  pose proof (inv_length _ _ _ _ _ Hinv (returned_nonneg _ _ _ _ _ Hrun Hout)) as Hlen.
  apply NoDup_Permutation; [exact Hnd|apply NoDup_seq|].
  intros j. rewrite Hiff, elem_of_seq. unfold task_is. split.
  - destruct (tasks s !! j) as [p|] eqn:Hj; [|discriminate].
    intros _. apply lookup_lt_Some in Hj. lia.
  - intros [_ Hlt]. destruct (lookup_lt_is_Some_2 (tasks s) j ltac:(lia)) as [p Hj].
    rewrite Hj. rewrite Forall_forall in Hdone.
    rewrite (Hdone p) by (eapply list_elem_of_lookup_2; eassumption). exact Hd.
Qed.

(** X13: No task is taken through [fetch_page] or through the rest of
    [process_url] twice: a schedule holds at most one [WorkerDone] and one
    [Resume] per task, a task is resumed only after its worker ended, and
    when [process_urls] returns every URL of the list, repeated or not, was
    fetched once and processed once. *)
Theorem each_url_once (evs : list event) (s : state) :
  run evs = Some s ->
  NoDup (workers_done evs) /\ NoDup (resumed evs) /\
  (forall i, i ∈ resumed evs -> i ∈ workers_done evs) /\
  (forall i, i ∈ resumed evs <-> task_is finished (tasks s) i = true) /\
  (outcome s = Returned ->
     workers_done evs ≡ₚ seq 0 (length urls) /\ resumed evs ≡ₚ seq 0 (length urls)).
Proof.
  intros Hrun.
  destruct (run_stage _ _ evs s fetch_over_stage eq_refl eq_refl Hrun) as (Hnw & Hw & Hrw).
  destruct (run_stage _ _ evs s finished_stage eq_refl eq_refl Hrun) as (Hnr & Hr & Hrr).
  split; [exact Hnw|]. split; [exact Hnr|]. split; [|split; [exact Hr|auto]].
  intros i Hi. apply Hw. apply Hr in Hi. unfold task_is in *.
  destruct (tasks s !! i) as [[]|]; try discriminate; reflexivity.
Qed.

(** *** The limit at its edges *)


Lemma count_le_length (f : phase -> bool) (l : list phase) : count f l <= length l.
Proof.
  unfold count, total. induction l as [|p l IH]; simpl; [lia|]. destruct (f p); lia.
Qed.

Lemma starved_step s ev s' :
  starved s -> step s ev = Some s' ->
  starved s' /\ count is_waiting (tasks s') = S (count is_waiting (tasks s)).
Proof.
  intros (Hout & Hsem & Hne & Hdata & Hall). unfold BaseScraper.step. rewrite Hout.
  assert (Hph : forall i p, tasks s !! i = Some p -> p = Pending \/ p = Waiting).
  { intros i p Hi. rewrite Forall_forall in Hall. apply Hall.
    eapply list_elem_of_lookup_2; eassumption. }
  destruct ev as [i|i|i| |i].
  - destruct (tasks s !! i) as [[]|] eqn:Hi; try discriminate.
    intros [= <-]. unfold acquire. rewrite Hsem. simpl. split.
    + repeat split; try assumption.
      * destruct (tasks s); [contradiction|]. now destruct i.
      * apply Forall_insert; auto.
    + pose proof (count_insert is_waiting (tasks s) i Waiting Pending Hi) as Hc.
      simpl in Hc. lia.
  - destruct (tasks s !! i) as [p|] eqn:Hi; [|discriminate].
    destruct (Hph i p Hi) as [-> | ->]; discriminate.
  - destruct (tasks s !! i) as [p|] eqn:Hi; [|discriminate].
    destruct (Hph i p Hi) as [-> | ->]; discriminate.
  - destruct (tasks s) as [|p l]; [contradiction|].
    inversion Hall as [|? ? [-> | ->] _]; discriminate.
  - destruct (tasks s !! i) as [p|] eqn:Hi; [|discriminate].
    destruct (Hph i p Hi) as [-> | ->]; discriminate.
Qed.

Lemma starved_exec s evs s' :
  starved s -> exec s evs = Some s' ->
  starved s' /\ count is_waiting (tasks s') = count is_waiting (tasks s) + length evs.
Proof.
  revert s. induction evs as [|ev evs IH]; intros s Hst; simpl.
  - intros [= <-]. split; [assumption|lia].
  - destruct (step s ev) as [s1|] eqn:Hs; [|discriminate]. intros Hex.
    destruct (starved_step _ _ _ Hst Hs) as [Hst1 Hc1].
    destruct (IH s1 Hst1 Hex) as [Hst' Hc']. split; [assumption|lia].
Qed.

(** X16: A limit of 0 is accepted, and then [process_urls] neither returns nor
    raises when there is a URL: every task queues at the semaphore, none is
    fetched, and once all have queued nothing can happen any more. *)
Theorem zero_limit_never_returns (evs : list event) (s : state) :
  max_workers = 0%Z -> urls <> [] ->
  run evs = Some s ->
  outcome s = Gathering /\ data s = [] /\
  Forall (fun p => p = Pending \/ p = Waiting) (tasks s) /\
  length evs <= length urls /\
  (length evs = length urls -> forall ev, step s ev = None).
Proof.
  intros Hz Hne Hrun. unfold BaseScraper.run in Hrun.
  assert (Hinit : starved init /\ count is_waiting (tasks init) = 0
                  /\ length (tasks init) = length urls).
  { unfold BaseScraper.init. rewrite Hz. simpl. repeat split.
    - destruct urls; [contradiction|discriminate].
    - apply Forall_forall. intros p Hp.
      apply list_elem_of_In, in_map_iff in Hp as (? & <- & _). now left.
    - apply count_none. apply Forall_forall. intros p Hp.
      apply list_elem_of_In, in_map_iff in Hp as (? & <- & _). reflexivity.
    - apply length_map. }
  destruct Hinit as (Hst0 & Hc0 & Hl0).
  destruct (starved_exec _ _ _ Hst0 Hrun) as [Hst Hc].
  pose proof (inv_length _ _ _ _ _ (exec_inv _ _ _ _ _ _ (init_inv _ _ _) Hrun)
                ltac:(lia)) as Hlen.
  pose proof (count_le_length is_waiting (tasks s)) as Hle.
  destruct Hst as (Hout & Hsem & Hnn & Hdata & Hall).
  repeat split; try assumption; [lia|].
  intros Hfull ev. destruct (step s ev) as [s1|] eqn:Hs; [|reflexivity].
  exfalso.
  destruct (starved_step s ev s1 ltac:(now repeat split) Hs) as [_ Hc1].
  pose proof (count_le_length is_waiting (tasks s1)) as Hle1.
  pose proof (inv_length _ _ _ _ _
                (step_inv _ _ _ _ _ _ (exec_inv _ _ _ _ _ _ (init_inv _ _ _) Hrun) Hs)
                ltac:(lia)) as Hlen1.
  lia.
Qed.

(** X17: When [process_urls] returns, every permit is back in the semaphore and
    no task waits for one. *)
Theorem permits_returned (evs : list event) (s : state) :
  run evs = Some s ->
  outcome s = Returned ->
  Z.of_nat (sem_value s) = max_workers /\ waiters s = [].
Proof.
  intros Hrun Hout. pose proof (run_inv _ _ _ _ _ Hrun) as Hinv.
  pose proof (inv_outcome _ _ _ _ _ Hinv) as Hdone. rewrite Hout in Hdone.
  pose proof (returned_nonneg _ _ _ _ _ Hrun Hout) as Hk.
  pose proof (inv_permits _ _ _ _ _ Hinv) as Hper.
  rewrite count_none in Hper by (eapply Forall_impl; [exact Hdone|]; now intros p ->).
  split; [lia|].
  destruct (waiters s) as [|w ws] eqn:Ew; [reflexivity|].
  assert (Hw : tasks s !! w = Some Waiting).
  { apply (inv_waiting _ _ _ _ _ Hinv). rewrite Ew. left. }
  rewrite Forall_forall in Hdone.
  specialize (Hdone Waiting (list_elem_of_lookup_2 _ _ _ Hw)). discriminate.
Qed.

Lemma no_page_no_data evs s :
  (forall i, truthy (fetch_page (url_of urls i) (renderer i)).1 = false) ->
  run evs = Some s ->
  data s = [].
Proof.
  intros Hnone Hrun. destruct (exec_data_log _ _ _ (init_inv _ _ _) Hrun) as [-> _].
  rewrite (proj1 init_data_log). simpl.
  induction (resumed evs) as [|i l IH]; [reflexivity|]. simpl. rewrite IH, app_nil_r.
  specialize (Hnone i). unfold BaseScraper.extraction. unfold fetch_page in Hnone.
  destruct (render (renderer i)) as [page|e]; [|reflexivity].
  cbn [fst] in Hnone. now rewrite Hnone.
Qed.

(** X18: When no URL gives a page that is not empty, [data] is empty at every
    point of the run. *)
Theorem nothing_rendered_no_data (evs : list event) (s : state) :
  (forall i, truthy (fetch_page (url_of urls i) (renderer i)).1 = false) ->
  run evs = Some s ->
  data s = [].
Proof. apply no_page_no_data. Qed.

(** *** The log of a finished run *)

Lemma flat_map_split_events (evs : list event) :
  flat_map event_lines evs ≡ₚ
  flat_map (fun i => event_lines (WorkerDone i)) (workers_done evs)
  ++ flat_map (fun i => event_lines (Resume i)) (resumed evs).
Proof.
  induction evs as [|ev evs IH]; [reflexivity|].
  destruct ev as [i|i|i| |i]; cbn [flat_map workers_done resumed omap list_omap];
    fold (workers_done evs); fold (resumed evs); try exact IH.
  - rewrite IH. now rewrite app_assoc.
  - rewrite IH. apply Permutation_app_swap_app.
Qed.

Lemma flat_map_app_perm {A B} (f g : A -> list B) (l : list A) :
  flat_map f l ++ flat_map g l ≡ₚ flat_map (fun a => f a ++ g a) l.
Proof.
  induction l as [|a l IH]; [reflexivity|]. simpl.
  rewrite <- IH, <- !app_assoc. apply Permutation_app_head.
  rewrite !app_assoc. apply Permutation_app_tail, Permutation_app_comm.
Qed.

Lemma flat_map_ext_in {A B} (f g : A -> list B) (l : list A) :
  (forall a, a ∈ l -> f a = g a) -> flat_map f l = flat_map g l.
Proof.
  induction l as [|a l IH]; intros Hfg; [reflexivity|]. simpl.
  rewrite (Hfg a) by left. rewrite IH; [reflexivity|].
  intros b Hb. apply Hfg. now right.
Qed.

(** X14: When [process_urls] returns, the log holds, up to order, one line for
    each URL that failed to render (the error) and one for each URL whose
    page was not empty (the number of listings found), and nothing for a
    URL whose page was empty. *)
Theorem log_one_line_per_url (evs : list event) (s : state) :
  run evs = Some s ->
  outcome s = Returned ->
  log s ≡ₚ
    flat_map (fun i =>
                match render (renderer i) with
                | Raise e => [failure_line urls i e]
                | Ok [] => []
                | Ok (c :: page) =>
                  [(INFO, u "Processed " ++ url_of urls i ++ u ", found "
                          ++ str_of_nat (length (records (BaseScraper.parse_page (c :: page))))
                          ++ u " listings")]
                end)
      (seq 0 (length urls)).
Proof.
  intros Hrun Hout. pose proof (run_inv _ _ _ _ _ Hrun) as Hinv.
  destruct (exec_data_log _ _ _ (init_inv _ _ _) Hrun) as [_ ->].
  rewrite (proj2 init_data_log). cbn [app].
  rewrite flat_map_split_events.
  destruct (run_stage _ _ evs s fetch_over_stage eq_refl eq_refl Hrun) as (_ & _ & Hw).
  destruct (run_stage _ _ evs s finished_stage eq_refl eq_refl Hrun) as (_ & _ & Hr).
  fold (workers_done evs) in Hw. fold (resumed evs) in Hr.
  rewrite (Permutation_flat_map _ (Hw Hout)), (Permutation_flat_map _ (Hr Hout)).
  rewrite flat_map_app_perm.
  erewrite flat_map_ext_in; [reflexivity|].
  intros i Hi. apply elem_of_seq in Hi as [_ Hi].
  pose proof (inv_outcome _ _ _ _ _ Hinv) as Hdone. rewrite Hout in Hdone.
  pose proof (inv_length _ _ _ _ _ Hinv (returned_nonneg _ _ _ _ _ Hrun Hout)) as Hlen.
  destruct (lookup_lt_is_Some_2 (tasks s) i ltac:(lia)) as [p Hp].
  rewrite Forall_forall in Hdone.
  pose proof (Hdone p (list_elem_of_lookup_2 _ _ _ Hp)) as ->.
  destruct (inv_phase _ _ _ _ _ Hinv i _ Hp) as [[l Hl] _].
  unfold BaseScraper.event_lines, fetch_page, failure_line.
  unfold BaseScraper.extraction in Hl.
  destruct (render (renderer i)) as [[|c page]|e]; try reflexivity.
  cbn [truthy] in Hl. rewrite Hl. reflexivity.
Qed.

End PoolRuns.

(** ** [main]: the pool, the scraper and the sink together *)

Import Main.

Lemma parse_offers_keys offers page_data :
  parse_offers offers = Ok page_data ->
  Forall (fun job_data => keys job_data = job_fields) page_data.
Proof.
  revert page_data. induction offers as [|o offers IH]; intros page_data; simpl.
  - intros [= <-]. constructor.
  - destruct (parse_offer o) as [jd|e] eqn:Ho; [|discriminate]. bind_step.
    destruct (parse_offers offers) as [pd|e]; [|discriminate]. bind_step.
    intros [= <-]. constructor; [now apply parse_offer_keys in Ho|now apply IH].
Qed.

Lemma parse_offers_raise offers e :
  parse_offers offers = Raise e ->
  e = Exn KeyError (u "href") /\ Exists lacks_href offers.
Proof.
  induction offers as [|o offers IH]; simpl; [discriminate|].
  destruct (parse_offer_raises o) as [Hr _].
  destruct (parse_offer o) as [jd|e0] eqn:Ho; bind_step.
  - destruct (parse_offers offers) as [pd|e1]; bind_step; [discriminate|].
    intros [= <-]. destruct (IH eq_refl) as [-> Hex]. split; [reflexivity|now right].
  - intros [= <-]. destruct (Hr e0 eq_refl) as [-> Hl]. split; [reflexivity|now left].
Qed.

(** Every record the scraper puts into [data] has the six fields. *)
Lemma pracuj_data_keys find_offers urls max_workers renderer evs s :
  BaseScraper.run (H := scraper find_offers) urls max_workers renderer evs = Some s ->
  Forall (fun job_data => keys job_data = job_fields) (data s).
Proof.
  intros Hrun.
  destruct (exec_data_log _ _ _ _ _ _ (init_inv _ _ _) Hrun) as [-> _].
  rewrite (proj1 (init_data_log _ _)). cbn [app].
  induction (resumed evs) as [|i l IH]; [constructor|]. simpl.
  apply Forall_app. split; [|exact IH].
  unfold extraction. destruct (render (renderer i)) as [page|e]; [|constructor].
  destruct (truthy (Some page)); [|constructor].
  change (BaseScraper.parse_page page) with (parse_offers (find_offers page)).
  destruct (parse_offers (find_offers page)) as [pd|e] eqn:Hp; [|constructor].
  exact (parse_offers_keys _ _ Hp).
Qed.

(** Only a parse error can make the pool of the scraper raise. *)
Lemma pracuj_raised find_offers urls max_workers renderer evs s e :
  (0 <= max_workers)%Z ->
  BaseScraper.run (H := scraper find_offers) urls max_workers renderer evs = Some s ->
  outcome s = Raised e ->
  e = Exn KeyError (u "href") /\
  exists i page, render (renderer i) = Ok page /\ truthy (Some page) = true /\
                 Exists lacks_href (find_offers page).
Proof.
  intros Hk Hrun Hout. pose proof (run_inv _ _ _ _ _ Hrun) as Hinv.
  pose proof (inv_outcome _ _ _ _ _ Hinv) as Ho. rewrite Hout in Ho.
  destruct Ho as [Hneg|[i Hi]]; [lia|].
  apply (inv_phase _ _ _ _ _ Hinv) in Hi. simpl in Hi. unfold extraction in Hi.
  destruct (render (renderer i)) as [page|e0] eqn:Hr; [|discriminate].
  destruct (truthy (Some page)) eqn:Ht; [|discriminate].
  change (BaseScraper.parse_page page) with (parse_offers (find_offers page)) in Hi.
  apply parse_offers_raise in Hi as [-> Hex]. eauto 10.
Qed.

Lemma job_fields_nodup : NoDup job_fields.
Proof. apply (bool_decide_unpack _). vm_compute. exact I. Qed.


(** X20: When [main] returns and the destination can be written, the file
    [job_listings.csv] holds the six field names and then, for each record
    of [data] in order, the record's six values; with no record at all the
    file store is as before and the last line logged is the warning. *)
Theorem main_writes_the_records (find_offers : pystr -> list Offer)
    (renderer : nat -> session) (dsk : pystr -> disk) (evs : list event) (w w' : world) :
  dsk output = Writable ->
  main find_offers renderer dsk evs w = Some (Ok PNone, w') ->
  exists s,
    BaseScraper.run (H := scraper find_offers) urls 3 renderer evs = Some s /\
    outcome s = Returned /\
    (data s = [] ->
       files w' = files w /\ last (logged w') = Some (WARNING, u "No data to save")) /\
    (data s <> [] ->
       files w' = <[output := List.map PStr job_fields :: List.map (List.map snd) (data s)]>
                    (files w)).
Proof.
  intros Hd. unfold main.
  change (BaseScraper.run (init_urls (UrlList urls)) default_max_workers renderer evs)
    with (BaseScraper.run (H := scraper find_offers) urls 3 renderer evs).
  destruct (BaseScraper.run _ _ _ _) as [s|] eqn:Hrun; [|discriminate].
  destruct (outcome s) as [| |e] eqn:Hout; [discriminate| |discriminate].
  intros [= Hsave]. exists s. split; [reflexivity|]. split; [exact Hout|].
  pose proof (pracuj_data_keys _ _ _ _ _ _ Hrun) as Hkeys.
  pose proof (f_equal snd Hsave) as Hw. simpl in Hw. subst w'. split.
  - intros ->. simpl. split; [reflexivity|apply last_snoc].
  - intros Hne. destruct (data s) as [|first rest]; [contradiction|].
    inversion Hkeys as [|? ? Hfirst Hrest]. subst.
    rewrite (save_to_csv_writable dsk output _ first rest Hd).
    + rewrite Hfirst. cbn [files]. do 2 f_equal.
      apply map_ext_in. intros d Hin. rewrite Forall_forall in Hkeys.
      specialize (Hkeys d ltac:(now apply list_elem_of_In)).
      rewrite <- Hkeys. apply row_of_own_keys. rewrite Hkeys. exact job_fields_nodup.
    + eapply Forall_impl; [exact Hrest|]. intros d Hk. rewrite Hk, Hfirst. reflexivity.
Qed.

(** X21: When no URL gives a page that is not empty, [main] returns, leaves the
    file store as it was, and ends the log with the warning, whatever the
    disk does. *)
Theorem main_without_pages (find_offers : pystr -> list Offer)
    (renderer : nat -> session) (dsk : pystr -> disk) (evs : list event)
    (w : world) (r : result pyval) (w' : world) :
  (forall i, truthy (fetch_page (url_of urls i) (renderer i)).1 = false) ->
  main find_offers renderer dsk evs w = Some (r, w') ->
  r = Ok PNone /\ files w' = files w /\
  last (logged w') = Some (WARNING, u "No data to save").
Proof.
  intros Hnone. unfold main.
  change (BaseScraper.run (init_urls (UrlList urls)) default_max_workers renderer evs)
    with (BaseScraper.run (H := scraper find_offers) urls 3 renderer evs).
  destruct (BaseScraper.run _ _ _ _) as [s|] eqn:Hrun; [|discriminate].
  destruct (outcome s) as [| |e] eqn:Hout; [discriminate| |].
  - rewrite (no_page_no_data _ _ _ _ _ Hnone Hrun). simpl.
    intros [= <- <-]. simpl. repeat split. apply last_snoc.
  - exfalso.
    destruct (pracuj_raised _ _ 3%Z _ _ _ _ ltac:(lia) Hrun Hout)
      as (_ & i & page & Hr & Ht & _).
    specialize (Hnone i). unfold fetch_page in Hnone. rewrite Hr in Hnone.
    cbn [fst] in Hnone. congruence.
Qed.

(** ** The further properties on the sample inputs *)

Lemma data_in_completion_order_witness :
  exists s,
    BaseScraper.run (H := scraper Samples.find_offers)
      Samples.urls 2 Samples.renderer Samples.schedule = Some s /\
    data s = flat_map (fun i => records (extraction (H := scraper Samples.find_offers)
                                           Samples.renderer i)) [1; 2; 0].
Proof.
  eexists. split; [vm_compute; reflexivity|].
  apply (data_in_completion_order (H := scraper Samples.find_offers)
           Samples.urls 2 Samples.renderer Samples.schedule).
  vm_compute. reflexivity.
Defined.

Lemma each_url_once_witness :
  exists s,
    BaseScraper.run (H := scraper Samples.find_offers)
      Samples.urls 2 Samples.renderer Samples.schedule = Some s /\
    outcome s = Returned /\
    resumed Samples.schedule ≡ₚ seq 0 (length Samples.urls).
Proof.
  eexists. split; [vm_compute; reflexivity|]. split; [reflexivity|].
  pose proof (each_url_once (H := scraper Samples.find_offers)
                Samples.urls 2 Samples.renderer Samples.schedule _
                ltac:(vm_compute; reflexivity)) as (_ & _ & _ & _ & Hret).
  exact (proj2 (Hret eq_refl)).
Defined.


Lemma zero_limit_never_returns_witness :
  exists s,
    BaseScraper.run (H := scraper Samples.find_offers)
      Samples.urls 0 Samples.renderer [Start 0; Start 1; Start 2] = Some s /\
    outcome s = Gathering /\
    forall ev, BaseScraper.step (H := scraper Samples.find_offers)
                 Samples.urls Samples.renderer s ev = None.
Proof.
  eexists. split; [vm_compute; reflexivity|].
  pose proof (zero_limit_never_returns (H := scraper Samples.find_offers)
                Samples.urls 0 Samples.renderer [Start 0; Start 1; Start 2] _
                eq_refl ltac:(discriminate) ltac:(vm_compute; reflexivity))
    as (Hout & _ & _ & _ & Hstuck).
  split; [exact Hout|exact (Hstuck eq_refl)].
Defined.

Lemma permits_returned_witness :
  exists s,
    BaseScraper.run (H := scraper Samples.find_offers)
      Samples.urls 2 Samples.renderer Samples.schedule = Some s /\
    Z.of_nat (sem_value s) = 2%Z /\ waiters s = [].
Proof.
  eexists. split; [vm_compute; reflexivity|].
  apply (permits_returned (H := scraper Samples.find_offers)
           Samples.urls 2 Samples.renderer Samples.schedule);
    vm_compute; reflexivity.
Defined.

Lemma nothing_rendered_no_data_witness :
  exists s,
    BaseScraper.run (H := scraper Samples.find_offers)
      Samples.urls 3 (fun _ => Samples.times_out) Samples.all_at_once = Some s /\
    data s = [].
Proof.
  eexists. split; [vm_compute; reflexivity|].
  apply (nothing_rendered_no_data (H := scraper Samples.find_offers)
           Samples.urls 3 (fun _ => Samples.times_out) Samples.all_at_once).
  - intros i. reflexivity.
  - vm_compute. reflexivity.
Defined.

Lemma log_one_line_per_url_witness :
  exists s,
    BaseScraper.run (H := scraper Samples.find_offers)
      Samples.urls 2 Samples.renderer Samples.schedule = Some s /\
    log s ≡ₚ
      [ (INFO, u "Processed https://it.pracuj.pl/praca?itth=37, found 2 listings");
        (ERROR, u "Error fetching URL https://it.pracuj.pl/praca?itth=33: net::ERR_TIMED_OUT");
        (INFO, u "Processed https://it.pracuj.pl/praca?itth=41, found 1 listings") ].
Proof.
  eexists. split; [vm_compute; reflexivity|].
  etransitivity.
  - apply (log_one_line_per_url (H := scraper Samples.find_offers)
             Samples.urls 2 Samples.renderer Samples.schedule);
      vm_compute; reflexivity.
  - vm_compute. reflexivity.
Defined.


Lemma main_writes_the_records_witness :
  exists w' s,
    main Samples.find_offers Samples.renderer (fun _ => Writable)
      Samples.schedule Samples.empty_world = Some (Ok PNone, w') /\
    BaseScraper.run (H := scraper Samples.find_offers) urls 3 Samples.renderer
      Samples.schedule = Some s /\
    files w' = <[output := List.map PStr job_fields :: List.map (List.map snd) (data s)]>
                 (files Samples.empty_world).
Proof.
  assert (Hm : {w' | main Samples.find_offers Samples.renderer (fun _ => Writable)
                       Samples.schedule Samples.empty_world = Some (Ok PNone, w')}).
  { eexists. vm_compute. reflexivity. }
  destruct Hm as [w' Hm].
  destruct (main_writes_the_records Samples.find_offers Samples.renderer (fun _ => Writable)
              Samples.schedule Samples.empty_world w' eq_refl Hm)
    as (s & Hrun & _ & _ & Hfiles).
  exists w', s. split; [exact Hm|]. split; [exact Hrun|].
  apply Hfiles. intros Hd. vm_compute in Hrun. injection Hrun as <-. discriminate.
Defined.

Lemma main_without_pages_witness :
  exists r w',
    main Samples.find_offers (fun _ => Samples.times_out) (fun _ => OpenFails (u "Read-only"))
      Samples.all_at_once Samples.empty_world = Some (r, w') /\
    r = Ok PNone /\ files w' = files Samples.empty_world /\
    last (logged w') = Some (WARNING, u "No data to save").
Proof.
  assert (Hm : {p | main Samples.find_offers (fun _ => Samples.times_out)
                      (fun _ => OpenFails (u "Read-only"))
                      Samples.all_at_once Samples.empty_world = Some p}).
  { eexists. vm_compute. reflexivity. }
  destruct Hm as [[r w'] Hm]. exists r, w'. split; [exact Hm|].
  exact (main_without_pages Samples.find_offers (fun _ => Samples.times_out) _ _ _ _ _
           (fun i => eq_refl) Hm).
Defined.
